(** * UVM toolchain: the instruction encoder and the interpreter

    A shallow embedding of [assembler.py] ([Opcode], [Instruction.to_binary],
    [Instruction.get_size], [Assembler.assemble_to_binary]) and of
    [interpreter.py] ([UVMInterpreter] with its fetch-decode-execute loop),
    followed by the properties of the design document that concern them.

    Python integers are unbounded, so they are [Z].  A [bytes] or [bytearray]
    object is a [list byte].  Exceptions are values of [exn]; a method that
    mutates [self] and may raise is a function from the object to a result
    and the object as the raise leaves it. *)

From Stdlib Require Import ZArith Lia List String Ascii DecimalString.
From Stdlib Require DecimalPos DecimalZ.
From Stdlib.Strings Require Import Byte.
From stdpp Require Import base list strings gmap.

Open Scope Z_scope.

(** ** The Python primitives the two modules use *)

Module Py.

(** The exceptions that the modelled code can raise, with their message. *)
Inductive exn : Type :=
| ValueError (msg : string)
| OverflowError (msg : string)
| RuntimeError (msg : string)
| IndexError (msg : string)
| StructError (msg : string).

(** A computation that returns an [A] or raises. *)
Definition result (A : Type) : Type := exn + A.

(** [str(z)] and [f"{z}"] for an int. *)
Definition str (z : Z) : string := NilZero.string_of_int (Z.to_int z).

Fixpoint hex_upper (d : Hexadecimal.uint) : string :=
  match d with
  | Hexadecimal.Nil => ""
  | Hexadecimal.D0 d => String "0" (hex_upper d)
  | Hexadecimal.D1 d => String "1" (hex_upper d)
  | Hexadecimal.D2 d => String "2" (hex_upper d)
  | Hexadecimal.D3 d => String "3" (hex_upper d)
  | Hexadecimal.D4 d => String "4" (hex_upper d)
  | Hexadecimal.D5 d => String "5" (hex_upper d)
  | Hexadecimal.D6 d => String "6" (hex_upper d)
  | Hexadecimal.D7 d => String "7" (hex_upper d)
  | Hexadecimal.D8 d => String "8" (hex_upper d)
  | Hexadecimal.D9 d => String "9" (hex_upper d)
  | Hexadecimal.Da d => String "A" (hex_upper d)
  | Hexadecimal.Db d => String "B" (hex_upper d)
  | Hexadecimal.Dc d => String "C" (hex_upper d)
  | Hexadecimal.Dd d => String "D" (hex_upper d)
  | Hexadecimal.De d => String "E" (hex_upper d)
  | Hexadecimal.Df d => String "F" (hex_upper d)
  end.

Fixpoint zeros (n : nat) : string :=
  match n with O => "" | S k => String "0" (zeros k) end.

Definition zfill (width : nat) (s : string) : string :=
  zeros (width - String.length s) +:+ s.

(** [f"{z:0{width}X}"]: upper-case hexadecimal, zero-padded to [width]
    characters, the sign counting as one of them. *)
Definition format_X (width : nat) (z : Z) : string :=
  if z <? 0
  then "-" +:+ zfill (width - 1) (hex_upper (N.to_hex_uint (Z.to_N (- z))))
  else zfill width (hex_upper (N.to_hex_uint (Z.to_N z))).

(** The int held by one element of a [bytes] or [bytearray]. *)
Definition Z_of_byte (b : byte) : Z := Z.of_N (Byte.to_N b).

(** The byte whose value is the low eight bits of [z]. *)
Definition byte_of_Z (z : Z) : byte :=
  match Byte.of_N (Z.to_N (Z.land z 255)) with
  | Some b => b
  | None => x00
  end.

Fixpoint le_bytes (length : nat) (n : Z) : list byte :=
  match length with
  | O => []
  | S k => byte_of_Z (Z.land n 255) :: le_bytes k (Z.shiftr n 8)
  end.

(** [n.to_bytes(length, 'little')], unsigned. *)
Definition to_bytes (n : Z) (length : nat) : result (list byte) :=
  if n <? 0 then inl (OverflowError "can't convert negative int to unsigned")
  else if 2 ^ (8 * Z.of_nat length) <=? n
       then inl (OverflowError "int too big to convert")
       else inr (le_bytes length n).

(** [l[i]] for an int [i]: a negative index counts from the end. *)
Definition index {A : Type} (l : list A) (i : Z) : option A :=
  let n := Z.of_nat (length l) in
  if i <? 0
  then (if n + i <? 0 then None else l !! Z.to_nat (n + i))
  else l !! Z.to_nat i.

(** [l[lo:hi]]: both bounds are taken from the end when negative and are
    clamped to the length. *)
Definition slice {A : Type} (l : list A) (lo hi : Z) : list A :=
  let n := Z.of_nat (length l) in
  let clamp i := if i <? 0 then Z.max 0 (n + i) else Z.min i n in
  take (Z.to_nat (clamp hi - clamp lo)) (drop (Z.to_nat (clamp lo)) l).

(** [struct.unpack('<I', bs)[0]] *)
Definition unpack_I (bs : list byte) : result Z :=
  match bs with
  | [b0; b1; b2; b3] =>
      inr (Z_of_byte b0 + Z.shiftl (Z_of_byte b1) 8
           + Z.shiftl (Z_of_byte b2) 16 + Z.shiftl (Z_of_byte b3) 24)
  | _ => inl (StructError "unpack requires a buffer of 4 bytes")
  end.

(** [struct.unpack('<b', bytes([v]))[0]] for [v] an element of a bytearray:
    the byte read as a signed 8-bit two's-complement number. *)
Definition unpack_b (v : Z) : Z := if v <? 128 then v else v - 256.

End Py.

(** ** assembler.py *)

Module assembler.
Import Py.

Inductive Opcode : Type := LOAD_CONST | READ_MEM | WRITE_MEM | SGN.

Definition value (o : Opcode) : Z :=
  match o with
  | LOAD_CONST => 74
  | READ_MEM => 135
  | WRITE_MEM => 213
  | SGN => 154
  end.

Record Instruction : Type := mkInstruction {
  opcode : Opcode;
  operand : option Z;
  line_number : Z
}.

Definition bind {A B : Type} (r : result A) (k : A -> result B) : result B :=
  match r with
  | inl e => inl e
  | inr a => k a
  end.

(** [Instruction.to_binary].  [Opcode] is closed, so the final [else] of the
    method (unknown opcode) has no case here. *)
Definition to_binary (self : Instruction) : result (list byte) :=
  match opcode self with
  | LOAD_CONST =>
      match operand self with
      | None => inl (ValueError ("Line " +:+ str (line_number self)
                                 +:+ ": LOAD requires operand"))
      | Some v =>
          bind (to_bytes (value (opcode self)) 1) (fun a =>
          bind (to_bytes v 4) (fun b => inr (a ++ b)))
      end
  | READ_MEM =>
      match operand self with
      | None => inl (ValueError ("Line " +:+ str (line_number self)
                                 +:+ ": READ requires operand"))
      | Some v =>
          if v >? 63
          then inl (ValueError ("Line " +:+ str (line_number self)
                                +:+ ": Offset too large: " +:+ str v
                                +:+ ". Max 63."))
          else
            bind (to_bytes (value (opcode self)) 1) (fun a =>
            bind (to_bytes v 1) (fun b => inr (a ++ b)))
      end
  | WRITE_MEM =>
      match operand self with
      | None => inl (ValueError ("Line " +:+ str (line_number self)
                                 +:+ ": WRITE requires operand"))
      | Some v =>
          bind (to_bytes (value (opcode self)) 1) (fun a =>
          bind (to_bytes v 4) (fun b => inr (a ++ b)))
      end
  | SGN => to_bytes (value (opcode self)) 1
  end.

(** [Instruction.get_size] *)
Definition get_size (self : Instruction) : Z :=
  match opcode self with
  | LOAD_CONST => 5
  | READ_MEM => 2
  | WRITE_MEM => 5
  | SGN => 1
  end.

(** [Assembler.assemble_to_binary] over the list [self.instructions]: the
    encodings are appended in order; a [ValueError] is caught and raised
    again with the same message, anything else propagates. *)
Fixpoint assemble_from (binary_data : list byte) (instructions : list Instruction)
  : result (list byte) :=
  match instructions with
  | [] => inr binary_data
  | instr :: rest =>
      match to_binary instr with
      | inl e => inl e
      | inr bs => assemble_from (binary_data ++ bs) rest
      end
  end.

Definition assemble_to_binary (instructions : list Instruction) : result (list byte) :=
  assemble_from [] instructions.

(** The four source forms [load v], [read off], [write a] and [sgn]. *)
Definition load (v : Z) : Instruction := mkInstruction LOAD_CONST (Some v) 0.
Definition read (off : Z) : Instruction := mkInstruction READ_MEM (Some off) 0.
Definition write (a : Z) : Instruction := mkInstruction WRITE_MEM (Some a) 0.
Definition sgn : Instruction := mkInstruction SGN None 0.

End assembler.

(** ** assembler.py: the [Assembler] object *)

Module Assembler.
Import Py assembler.

(** The fields of an [Assembler] object. *)
Record Assembler : Type := mkAssembler {
  instructions : list Instruction;
  binary_data : list byte
}.

Definition set_binary_data (self : Assembler) (v : list byte) : Assembler :=
  mkAssembler (instructions self) v.

(** [Assembler()] *)
Definition init : Assembler := mkAssembler [] [].

(** A method of the object: its result, and the object as it leaves it. *)
Definition M (A : Type) : Type := Assembler -> result A * Assembler.

(** The [for instr in self.instructions] loop of [assemble_to_binary]:
    [self.binary_data += instr.to_binary()], where a [ValueError] is caught
    and raised again as [ValueError(str(e))], the same message. *)
Fixpoint assemble_loop (instrs : list Instruction) : M unit :=
  fun self =>
    match instrs with
    | [] => (inr tt, self)
    | instr :: rest =>
        match to_binary instr with
        | inl (ValueError msg) => (inl (ValueError msg), self)
        | inl e => (inl e, self)
        | inr bs =>
            assemble_loop rest (set_binary_data self (binary_data self ++ bs))
        end
    end.

(** [Assembler.assemble_to_binary], with the object. *)
Definition assemble_to_binary : M (list byte) :=
  fun self =>
    let self := set_binary_data self [] in
    match assemble_loop (instructions self) self with
    | (inl e, self') => (inl e, self')
    | (inr _, self') => (inr (binary_data self'), self')
    end.

(** [Opcode.name] *)
Definition name (o : Opcode) : string :=
  match o with
  | LOAD_CONST => "LOAD_CONST"
  | READ_MEM => "READ_MEM"
  | WRITE_MEM => "WRITE_MEM"
  | SGN => "SGN"
  end.

(** The dictionary that [get_internal_representation] builds for one
    instruction, one field per key. *)
Record instr_dict : Type := mk_instr_dict {
  dict_opcode : string;
  dict_opcode_value : Z;
  dict_operand : option Z;
  dict_size : Z;
  dict_line : Z;
  dict_description : string
}.

(** [Assembler.get_internal_representation] *)
Definition get_internal_representation (self : Assembler) : list instr_dict :=
  map (fun instr =>
         mk_instr_dict (name (opcode instr)) (value (opcode instr))
                       (operand instr) (get_size instr) (line_number instr)
                       (match opcode instr with
                        | LOAD_CONST => "Load constant"
                        | READ_MEM => "Read from memory"
                        | WRITE_MEM => "Write to memory"
                        | SGN => "Unary operation sgn()"
                        end))
      (instructions self).

(** [total_size], as [main] sums it over the internal representation. *)
Definition total_size (internal_repr : list instr_dict) : Z :=
  fold_left (fun total instr => total + dict_size instr) internal_repr 0.

(** [sep.join(l)] *)
Fixpoint join (sep : string) (l : list string) : string :=
  match l with
  | [] => ""
  | [s] => s
  | s :: rest => s +:+ sep +:+ join sep rest
  end.

(** [[f'0x{b:02X}' for b in bs]] *)
Definition hex_bytes (bs : list byte) : list string :=
  map (fun b => "0x" +:+ format_X 2 (Z_of_byte b)) bs.

(** The [for i, instr in enumerate(self.instructions)] loop of the
    ['detailed'] style, from index [i] on. *)
Fixpoint detailed_lines (i : Z) (instrs : list Instruction) (output_lines : list string)
  : result (list string) :=
  match instrs with
  | [] => inr output_lines
  | instr :: rest =>
      match to_binary instr with
      | inl e => inl e
      | inr instr_bytes =>
          detailed_lines (i + 1) rest
            (output_lines
             ++ ["Instruction " +:+ str i +:+ " (line " +:+ str (line_number instr)
                 +:+ "): " +:+ join ", " (hex_bytes instr_bytes)])
      end
  end.

(** [Assembler.display_binary_output] *)
Definition display_binary_output (format_style : string) : M string :=
  fun self =>
    let assembled :=
      match binary_data self with
      | [] => assemble_to_binary self
      | _ => (inr [], self)
      end in
    match assembled with
    | (inl e, self') => (inl e, self')
    | (inr _, self') =>
        if String.eqb format_style "hex"
        then (inr (join (String (ascii_of_nat 10) "")
                        [join ", " (hex_bytes (binary_data self'))]), self')
        else if String.eqb format_style "detailed"
        then match detailed_lines 0 (instructions self') [] with
             | inl e => (inl e, self')
             | inr output_lines =>
                 (inr (join (String (ascii_of_nat 10) "") output_lines), self')
             end
        else (inr (join (String (ascii_of_nat 10) "") []), self')
    end.

End Assembler.

(** ** interpreter.py *)

Module interpreter.
Import Py.

(** The fields of a [UVMInterpreter] object. *)
Record UVMInterpreter : Type := mkUVM {
  code_memory : list byte;
  program_size : Z;
  data_memory : list byte;
  stack : list Z;
  ip : Z
}.

Definition set_ip (self : UVMInterpreter) (v : Z) : UVMInterpreter :=
  mkUVM (code_memory self) (program_size self) (data_memory self) (stack self) v.

Definition set_stack (self : UVMInterpreter) (v : list Z) : UVMInterpreter :=
  mkUVM (code_memory self) (program_size self) (data_memory self) v (ip self).

Definition set_data_memory (self : UVMInterpreter) (v : list byte) : UVMInterpreter :=
  mkUVM (code_memory self) (program_size self) v (stack self) (ip self).

(** [UVMInterpreter(data_memory_size)]: the data memory is zero-filled.  (A
    negative size, which [bytearray] refuses, is taken as 0.) *)
Definition init (data_memory_size : Z) : UVMInterpreter :=
  mkUVM [] 0 (replicate (Z.to_nat data_memory_size) x00) [] 0.

(** [load_program] *)
Definition load_program (self : UVMInterpreter) (binary_data : list byte)
  : UVMInterpreter :=
  mkUVM binary_data (Z.of_nat (length binary_data))
        (data_memory self) (stack self) (ip self).

(** A method: it returns or raises, and leaves the object behind in either
    case (what a raise has already mutated stays mutated). *)
Definition M (A : Type) : Type := UVMInterpreter -> result A * UVMInterpreter.

Definition ret {A : Type} (a : A) : M A := fun self => (inr a, self).

Definition raise {A : Type} (e : exn) : M A := fun self => (inl e, self).

Definition bind {A B : Type} (m : M A) (k : A -> M B) : M B :=
  fun self =>
    match m self with
    | (inl e, self') => (inl e, self')
    | (inr a, self') => k a self'
    end.

#[local] Notation "x <- m ;; k" := (bind m (fun x => k))
  (at level 100, m at next level, right associativity).

Definition get {A : Type} (f : UVMInterpreter -> A) : M A :=
  fun self => (inr (f self), self).

Definition modify (f : UVMInterpreter -> UVMInterpreter) : M unit :=
  fun self => (inr tt, f self).

Definition read_byte_from_code : M Z :=
  fun self =>
    if ip self >=? program_size self
    then (inl (RuntimeError "Instruction pointer beyond program end"), self)
    else
      match index (code_memory self) (ip self) with
      | None => (inl (IndexError "index out of range"), self)
      | Some byte => (inr (Z_of_byte byte), set_ip self (ip self + 1))
      end.

Definition read_dword_from_code : M Z :=
  fun self =>
    if ip self + 4 >? program_size self
    then (inl (RuntimeError "Not enough bytes to read DWORD from code"), self)
    else
      match unpack_I (slice (code_memory self) (ip self) (ip self + 4)) with
      | inl e => (inl e, self)
      | inr value => (inr value, set_ip self (ip self + 4))
      end.

(** [self.stack.append(value)]: the top of the stack is the last element. *)
Definition push (value : Z) : M unit :=
  modify (fun self => set_stack self (stack self ++ [value])).

Definition pop : M Z :=
  fun self =>
    match last (stack self) with
    | None => (inl (RuntimeError "Stack underflow"), self)
    | Some v => (inr v, set_stack self (removelast (stack self)))
    end.

(** [0 <= addr < len(self.data_memory)] *)
Definition in_data (self : UVMInterpreter) (addr : Z) : bool :=
  (0 <=? addr) && (addr <? Z.of_nat (length (data_memory self))).

(** [self.data_memory[addr]] *)
Definition data_get (addr : Z) : M Z :=
  fun self =>
    match index (data_memory self) addr with
    | None => (inl (IndexError "bytearray index out of range"), self)
    | Some b => (inr (Z_of_byte b), self)
    end.

(** [self.data_memory[addr] = value] *)
Definition data_set (addr value : Z) : M unit :=
  fun self =>
    if (value <? 0) || (255 <? value)
    then (inl (ValueError "byte must be in range(0, 256)"), self)
    else
      match index (data_memory self) addr with
      | None => (inl (IndexError "bytearray index out of range"), self)
      | Some _ =>
          let n := Z.of_nat (length (data_memory self)) in
          let i := if addr <? 0 then n + addr else addr in
          (inr tt, set_data_memory self
                     (<[Z.to_nat i := byte_of_Z value]> (data_memory self)))
      end.

(** The branches of the [if opcode == ...] chain, after the opcode byte has
    been read at [start_ip]. *)
Definition dispatch (opcode start_ip : Z) : M unit :=
  if opcode =? 74 then
    constant <- read_dword_from_code ;;
    push constant
  else if opcode =? 135 then
    offset_byte <- read_byte_from_code ;;
    let offset := Z.land offset_byte 63 in
    base_addr <- pop ;;
    let addr := base_addr + offset in
    valid <- get (fun self => in_data self addr) ;;
    if negb valid
    then raise (RuntimeError ("READ_MEM: invalid data address " +:+ str addr))
    else
      value <- data_get addr ;;
      push value
  else if opcode =? 213 then
    addr <- read_dword_from_code ;;
    popped <- pop ;;
    let value := Z.land popped 255 in
    valid <- get (fun self => in_data self addr) ;;
    if negb valid
    then raise (RuntimeError ("WRITE_MEM: invalid data address " +:+ str addr))
    else data_set addr value
  else if opcode =? 154 then
    addr <- pop ;;
    valid <- get (fun self => in_data self addr) ;;
    if negb valid
    then raise (RuntimeError ("SGN: invalid data address " +:+ str addr))
    else
      byte_val <- data_get addr ;;
      let signed_val := unpack_b byte_val in
      let result := if signed_val >? 0 then 1
                    else if signed_val <? 0 then -1
                    else 0 in
      push result
  else
    raise (RuntimeError ("Unknown opcode: 0x" +:+ format_X 2 opcode
                         +:+ " at IP=0x" +:+ format_X 4 start_ip)).

(** How a run of [execute] ends.  [start_ip] and [instruction_count] are
    the locals of the loop: the count is printed when the loop finishes;
    a raise drops both, only the exception [e] reaches the caller. *)
Inductive outcome : Type :=
| Finished (instruction_count : Z)
| Raised (e : exn) (start_ip instruction_count : Z)
| OutOfFuel.

(** One pass through the body of the [while]. *)
Definition cycle (instruction_count : Z) (self : UVMInterpreter)
  : result Z * UVMInterpreter * Z :=
  let start_ip := ip self in
  match read_byte_from_code self with
  | (inl e, self') => (inl e, self', instruction_count)
  | (inr opcode, self') =>
      let instruction_count := instruction_count + 1 in
      match dispatch opcode start_ip self' with
      | (inl e, self'') => (inl e, self'', instruction_count)
      | (inr _, self'') => (inr instruction_count, self'', instruction_count)
      end
  end.

(** [while self.ip < self.program_size: ...], at most [fuel] passes. *)
Fixpoint while_loop (fuel : nat) (instruction_count : Z) (self : UVMInterpreter)
  : outcome * UVMInterpreter :=
  if ip self <? program_size self then
    match fuel with
    | O => (OutOfFuel, self)
    | S fuel' =>
        match cycle instruction_count self with
        | (inl e, self', n) => (Raised e (ip self) n, self')
        | (inr _, self', n) => while_loop fuel' n self'
        end
    end
  else (Finished instruction_count, self).

(** [execute]: every pass moves [ip] forward, so [program_size - ip] passes
    are enough (see [while_loop_enough_fuel]). *)
Definition execute (self : UVMInterpreter) : outcome * UVMInterpreter :=
  while_loop (Z.to_nat (program_size self - ip self)) 0 self.

(** The [output] dictionary of [save_memory_dump], one field per key of its
    ["memory_dump"] entry; [dump_data] is the dictionary from [str(addr)] to
    the byte value. *)
Record memory_dump : Type := mk_memory_dump {
  dump_start : Z;
  dump_end : Z;
  dump_size : Z;
  dump_data : gmap string Z
}.

(** [for addr in range(start, end): dump_data[str(addr)] = self.data_memory[addr]] *)
Fixpoint dump_loop (addrs : list Z) (dump_data : gmap string Z) : M (gmap string Z) :=
  fun self =>
    match addrs with
    | [] => (inr dump_data, self)
    | addr :: rest =>
        match index (data_memory self) addr with
        | None => (inl (IndexError "bytearray index out of range"), self)
        | Some b => dump_loop rest (<[str addr := Z_of_byte b]> dump_data) self
        end
    end.

(** [save_memory_dump], up to the dictionary that it hands to [json.dump]
    (the file itself is outside the model). *)
Definition save_memory_dump (start end_ : Z) : M memory_dump :=
  fun self =>
    if (start <? 0) || (end_ >? Z.of_nat (length (data_memory self)))
       || (start >? end_)
    then (inl (ValueError ("Invalid memory range: [" +:+ str start +:+ ", "
                           +:+ str end_ +:+ ")")), self)
    else
      match dump_loop (seqZ start (end_ - start)) ∅ self with
      | (inl e, self') => (inl e, self')
      | (inr dump_data, self') =>
          (inr (mk_memory_dump start end_ (end_ - start) dump_data), self')
      end.


End interpreter.

(** ** Notions of the design document used in the statements *)

Module design.
Import Py assembler interpreter.

(** The operand values that the data model allows for each opcode:
    an unsigned 32-bit value for [load] and [write], an offset of at most
    63 for [read]; [sgn] takes no operand and ignores one. *)
Definition legal (i : Instruction) : bool :=
  match opcode i, operand i with
  | LOAD_CONST, Some v => (0 <=? v) && (v <? 2 ^ 32)
  | READ_MEM, Some off => (0 <=? off) && (off <=? 63)
  | WRITE_MEM, Some a => (0 <=? a) && (a <? 2 ^ 32)
  | SGN, _ => true
  | _, None => false
  end.

(** A well-formed binary program: only the four opcodes, each followed by
    all of its operand bytes.  Returns the number of instructions. *)
Fixpoint instructions (code : list byte) : option nat :=
  match code with
  | [] => Some O
  | op :: rest =>
      if Z_of_byte op =? 74 then
        match rest with
        | _ :: _ :: _ :: _ :: rest' => option_map S (instructions rest')
        | _ => None
        end
      else if Z_of_byte op =? 135 then
        match rest with
        | _ :: rest' => option_map S (instructions rest')
        | _ => None
        end
      else if Z_of_byte op =? 213 then
        match rest with
        | _ :: _ :: _ :: _ :: rest' => option_map S (instructions rest')
        | _ => None
        end
      else if Z_of_byte op =? 154 then option_map S (instructions rest)
      else None
  end.

(** The unsigned 32-bit value of four little-endian bytes. *)
Definition dword (b0 b1 b2 b3 : byte) : Z :=
  Z_of_byte b0 + 2 ^ 8 * Z_of_byte b1 + 2 ^ 16 * Z_of_byte b2
  + 2 ^ 24 * Z_of_byte b3.

(** The bytes [bs] sit in code memory at the instruction pointer, after [pre]
    and before [post], and [program_size] is the length of the code (as
    [load_program] sets it). *)
Definition fetches (self : UVMInterpreter) (pre bs post : list byte) : Prop :=
  code_memory self = pre ++ bs ++ post
  /\ ip self = Z.of_nat (length pre)
  /\ program_size self = Z.of_nat (length (code_memory self)).

(** The value that [SGN] pushes for the byte value [byte_val]. *)
Definition sgn_result (byte_val : Z) : Z :=
  if unpack_b byte_val >? 0 then 1
  else if unpack_b byte_val <? 0 then -1 else 0.

(** The byte shapes of the four instructions. *)
Inductive instruction_bytes : list byte -> Prop :=
| load_bytes b0 b1 b2 b3 : instruction_bytes [x4a; b0; b1; b2; b3]
| read_bytes off : instruction_bytes [x87; off]
| write_bytes b0 b1 b2 b3 : instruction_bytes [xd5; b0; b1; b2; b3]
| sgn_bytes : instruction_bytes [x9a].

(** The error kinds of the design document, as the messages of the
    [RuntimeError]s that the interpreter raises. *)
Definition StackUnderflow (msg : string) : Prop := msg = "Stack underflow".

Definition InvalidAddress (msg : string) : Prop :=
  exists addr,
    msg = "READ_MEM: invalid data address " +:+ str addr
    \/ msg = "WRITE_MEM: invalid data address " +:+ str addr
    \/ msg = "SGN: invalid data address " +:+ str addr.

Definition TruncatedInstruction (msg : string) : Prop :=
  msg = "Instruction pointer beyond program end"
  \/ msg = "Not enough bytes to read DWORD from code".

Definition IllegalOpcode (msg : string) (opcode start_ip : Z) : Prop :=
  msg = "Unknown opcode: 0x" +:+ format_X 2 opcode
        +:+ " at IP=0x" +:+ format_X 4 start_ip.

(** The programs and machine states of the scenarios. *)
Definition program (instructions : list Instruction) : list byte :=
  match assemble_to_binary instructions with
  | inr binary_data => binary_data
  | inl _ => []
  end.

(** A fresh 1 KB machine with [data[addr] = b] and the program loaded. *)
Definition machine_with (addr : nat) (b : byte) (code : list byte) : UVMInterpreter :=
  set_data_memory (load_program (init 1024) code)
                  (<[addr := b]> (data_memory (init 1024))).

(** The values that the interpreter itself puts on the stack. *)
Definition machine_value (z : Z) : Prop := -1 <= z < 2 ^ 32.

End design.

(** * Properties *)

Import Py assembler interpreter design.

(** ** Bytes and Python lists *)

Lemma Z_of_byte_range (b : byte) : 0 <= Z_of_byte b <= 255.
Proof.
  unfold Z_of_byte. pose proof (Byte.to_N_bounded b). lia.
Qed.

Lemma Z_of_byte_of_Z (z : Z) : 0 <= z <= 255 -> Z_of_byte (byte_of_Z z) = z.
Proof.
  intros Hz. unfold byte_of_Z, Z_of_byte.
  assert (Hland : Z.land z 255 = z).
  { change 255 with (Z.ones 8). rewrite Z.land_ones by lia.
    apply Z.mod_small. lia. }
  rewrite Hland.
  destruct (Byte.of_N (Z.to_N z)) as [b|] eqn:E.
  - apply Byte.to_of_N in E. lia.
  - apply Byte.of_N_None_iff in E. lia.
Qed.

Lemma land_255_range (z : Z) : 0 <= Z.land z 255 <= 255.
Proof.
  change 255 with (Z.ones 8) at 1 2. rewrite Z.land_ones by lia.
  pose proof (Z.mod_pos_bound z (2 ^ 8)). lia.
Qed.

Lemma land_63_range (z : Z) : 0 <= Z.land z 63 <= 63.
Proof.
  change 63 with (Z.ones 6) at 1 2. rewrite Z.land_ones by lia.
  pose proof (Z.mod_pos_bound z (2 ^ 6)). lia.
Qed.

Lemma index_nonneg {A : Type} (l : list A) (i : Z) :
  0 <= i -> index l i = l !! Z.to_nat i.
Proof.
  intros Hi. unfold index. destruct (Z.ltb_spec i 0); [lia | reflexivity].
Qed.

Lemma index_middle {A : Type} (pre post : list A) (x : A) :
  index (pre ++ x :: post) (Z.of_nat (length pre)) = Some x.
Proof.
  rewrite index_nonneg by lia. rewrite Nat2Z.id.
  apply list_lookup_middle. reflexivity.
Qed.

Lemma slice_middle {A : Type} (pre bs post : list A) :
  slice (pre ++ bs ++ post) (Z.of_nat (length pre))
        (Z.of_nat (length pre) + Z.of_nat (length bs)) = bs.
Proof.
  unfold slice. rewrite !length_app.
  destruct (Z.ltb_spec (Z.of_nat (length pre)) 0); [lia|].
  destruct (Z.ltb_spec (Z.of_nat (length pre) + Z.of_nat (length bs)) 0); [lia|].
  rewrite !Z.min_l by lia.
  replace (Z.to_nat (Z.of_nat (length pre) + Z.of_nat (length bs)
                     - Z.of_nat (length pre))) with (length bs) by lia.
  rewrite Nat2Z.id. rewrite drop_app_length. apply take_app_length.
Qed.

Lemma unpack_I_dword (b0 b1 b2 b3 : byte) :
  unpack_I [b0; b1; b2; b3] = inr (dword b0 b1 b2 b3).
Proof.
  unfold unpack_I, dword. rewrite !Z.shiftl_mul_pow2 by lia.
  f_equal. lia.
Qed.

Lemma dword_range (b0 b1 b2 b3 : byte) : 0 <= dword b0 b1 b2 b3 < 2 ^ 32.
Proof.
  unfold dword.
  pose proof (Z_of_byte_range b0). pose proof (Z_of_byte_range b1).
  pose proof (Z_of_byte_range b2). pose proof (Z_of_byte_range b3). lia.
Qed.

Lemma nonempty_snoc {A : Type} (l : list A) :
  l <> [] -> exists s v, l = s ++ [v].
Proof.
  intros Hl. destruct (exists_last Hl) as [s [v E]]. exists s, v. exact E.
Qed.

(** ** The primitives of the interpreter *)

Lemma fetches_guard self pre b bs post :
  fetches self pre (b :: bs) post -> (ip self <? program_size self) = true.
Proof.
  intros (Hc & Hi & Hp). apply Z.ltb_lt. rewrite Hp, Hi, Hc.
  rewrite !length_app. simpl. lia.
Qed.

Lemma fetches_tail self pre b bs post :
  fetches self pre (b :: bs) post ->
  fetches (set_ip self (ip self + 1)) (pre ++ [b]) bs post.
Proof.
  intros (Hc & Hi & Hp). unfold fetches. simpl.
  rewrite Hc, <- !app_assoc. simpl. repeat split.
  - rewrite Hi, length_app. simpl. lia.
  - rewrite Hp, Hc. reflexivity.
Qed.

Lemma read_byte_from_code_at self pre b bs post :
  fetches self pre (b :: bs) post ->
  read_byte_from_code self = (inr (Z_of_byte b), set_ip self (ip self + 1)).
Proof.
  intros H. pose proof (fetches_guard _ _ _ _ _ H) as Hg.
  destruct H as (Hc & Hi & Hp). unfold read_byte_from_code.
  destruct (Z.geb_spec (ip self) (program_size self)) as [Hge|_].
  { apply Z.ltb_lt in Hg. lia. }
  rewrite Hc, Hi. simpl. rewrite index_middle. reflexivity.
Qed.

Lemma read_dword_from_code_at self pre b0 b1 b2 b3 post :
  fetches self pre [b0; b1; b2; b3] post ->
  read_dword_from_code self
  = (inr (dword b0 b1 b2 b3), set_ip self (ip self + 4)).
Proof.
  intros (Hc & Hi & Hp). unfold read_dword_from_code.
  destruct (Z.gtb_spec (ip self + 4) (program_size self)) as [Hgt|_].
  { rewrite Hp, Hi, Hc in Hgt. rewrite !length_app in Hgt. simpl in Hgt. lia. }
  rewrite Hc, Hi.
  change 4 with (Z.of_nat (length [b0; b1; b2; b3])) at 1.
  rewrite slice_middle, unpack_I_dword. reflexivity.
Qed.

Lemma pop_empty self :
  stack self = [] -> pop self = (inl (RuntimeError "Stack underflow"), self).
Proof. intros H. unfold pop. rewrite H. reflexivity. Qed.

Lemma pop_top self s v :
  stack self = s ++ [v] -> pop self = (inr v, set_stack self s).
Proof.
  intros H. unfold pop. rewrite H, last_snoc, removelast_last. reflexivity.
Qed.

Lemma in_data_true self addr :
  in_data self addr = true <-> 0 <= addr < Z.of_nat (length (data_memory self)).
Proof. unfold in_data. rewrite andb_true_iff, Z.leb_le, Z.ltb_lt. tauto. Qed.

Lemma in_data_false self addr :
  in_data self addr = false
  <-> ~ (0 <= addr < Z.of_nat (length (data_memory self))).
Proof. rewrite <- in_data_true. destruct (in_data self addr); split; congruence. Qed.

Lemma data_lookup self addr :
  0 <= addr < Z.of_nat (length (data_memory self)) ->
  exists b, data_memory self !! Z.to_nat addr = Some b
            /\ index (data_memory self) addr = Some b.
Proof.
  intros H. destruct (lookup_lt_is_Some_2 (data_memory self) (Z.to_nat addr))
    as [b Hb]; [lia|].
  exists b. split; [exact Hb|]. rewrite index_nonneg by lia. exact Hb.
Qed.

(** ** One pass of the loop, instruction by instruction *)

Ltac fetch_opcode H :=
  unfold cycle; rewrite (read_byte_from_code_at _ _ _ _ _ H);
  cbv beta iota zeta; unfold dispatch.

Ltac run_bind := unfold bind at 1.

Ltac same_state :=
  cbv beta iota; unfold push, modify, set_stack, set_ip, set_data_memory;
  simpl; rewrite <- ?Z.add_assoc; reflexivity.

Lemma cycle_load self pre b0 b1 b2 b3 post n :
  fetches self pre [x4a; b0; b1; b2; b3] post ->
  cycle n self
  = (inr (n + 1),
     mkUVM (code_memory self) (program_size self) (data_memory self)
           (stack self ++ [dword b0 b1 b2 b3]) (ip self + 5),
     n + 1).
Proof.
  intros H. fetch_opcode H.
  change (Z_of_byte x4a =? 74) with true. cbv iota. run_bind.
  rewrite (read_dword_from_code_at _ _ _ _ _ _ _ (fetches_tail _ _ _ _ _ H)).
  same_state.
Qed.

Section read_mem_cycle.
Variables (self : UVMInterpreter) (pre post : list byte) (off : byte) (n : Z).
Hypothesis Hcode : fetches self pre [x87; off] post.

Lemma cycle_read_underflow :
  stack self = [] ->
  cycle n self
  = (inl (RuntimeError "Stack underflow"), set_ip self (ip self + 2), n + 1).
Proof using Hcode.
  intros Hs. fetch_opcode Hcode.
  change (Z_of_byte x87 =? 74) with false.
  change (Z_of_byte x87 =? 135) with true. cbv iota. run_bind.
  rewrite (read_byte_from_code_at _ _ _ _ _ (fetches_tail _ _ _ _ _ Hcode)).
  cbv beta iota zeta. run_bind.
  erewrite pop_empty by exact Hs. same_state.
Qed.

Variables (s : list Z) (base : Z).
Hypothesis Hstack : stack self = s ++ [base].

Let addr := base + Z.land (Z_of_byte off) 63.

Lemma cycle_read_invalid :
  ~ (0 <= addr < Z.of_nat (length (data_memory self))) ->
  cycle n self
  = (inl (RuntimeError ("READ_MEM: invalid data address " +:+ str addr)),
     mkUVM (code_memory self) (program_size self) (data_memory self)
           s (ip self + 2),
     n + 1).
Proof using Hcode Hstack.
  intros Ha. fetch_opcode Hcode.
  change (Z_of_byte x87 =? 74) with false.
  change (Z_of_byte x87 =? 135) with true. cbv iota. run_bind.
  rewrite (read_byte_from_code_at _ _ _ _ _ (fetches_tail _ _ _ _ _ Hcode)).
  cbv beta iota zeta. run_bind.
  erewrite pop_top by exact Hstack. cbv beta iota. run_bind. unfold get.
  match goal with |- context [in_data ?st ?a] =>
    replace (in_data st a) with false
      by (symmetry; apply in_data_false; exact Ha) end.
  unfold raise. same_state.
Qed.

Lemma cycle_read_ok b :
  0 <= addr ->
  data_memory self !! Z.to_nat addr = Some b ->
  cycle n self
  = (inr (n + 1),
     mkUVM (code_memory self) (program_size self) (data_memory self)
           (s ++ [Z_of_byte b]) (ip self + 2),
     n + 1).
Proof using Hcode Hstack.
  intros Ha Hb. fetch_opcode Hcode.
  change (Z_of_byte x87 =? 74) with false.
  change (Z_of_byte x87 =? 135) with true. cbv iota. run_bind.
  rewrite (read_byte_from_code_at _ _ _ _ _ (fetches_tail _ _ _ _ _ Hcode)).
  cbv beta iota zeta. run_bind.
  erewrite pop_top by exact Hstack. cbv beta iota. run_bind. unfold get.
  match goal with |- context [in_data ?st ?a] =>
    replace (in_data st a) with true
      by (symmetry; apply in_data_true; simpl;
          apply lookup_lt_Some in Hb; fold addr; lia) end.
  change (negb true) with false. cbv beta iota. run_bind. unfold data_get.
  simpl data_memory. fold addr. rewrite index_nonneg by exact Ha.
  rewrite Hb. same_state.
Qed.

End read_mem_cycle.

Ltac decide_in_data v H :=
  match goal with |- context [in_data ?st ?a] =>
    replace (in_data st a) with v by (symmetry; apply H; reflexivity) end.

Section write_mem_cycle.
Variables (self : UVMInterpreter) (pre post : list byte) (b0 b1 b2 b3 : byte) (n : Z).
Hypothesis Hcode : fetches self pre [xd5; b0; b1; b2; b3] post.

Let addr := dword b0 b1 b2 b3.

Ltac fetch_write :=
  fetch_opcode Hcode;
  change (Z_of_byte xd5 =? 74) with false;
  change (Z_of_byte xd5 =? 135) with false;
  change (Z_of_byte xd5 =? 213) with true; cbv iota; run_bind;
  rewrite (read_dword_from_code_at _ _ _ _ _ _ _ (fetches_tail _ _ _ _ _ Hcode));
  cbv beta iota zeta; run_bind.

Lemma cycle_write_underflow :
  stack self = [] ->
  cycle n self
  = (inl (RuntimeError "Stack underflow"), set_ip self (ip self + 5), n + 1).
Proof using Hcode.
  intros Hs. fetch_write. erewrite pop_empty by exact Hs. same_state.
Qed.

Variables (s : list Z) (v : Z).
Hypothesis Hstack : stack self = s ++ [v].

Lemma cycle_write_invalid :
  ~ (addr < Z.of_nat (length (data_memory self))) ->
  cycle n self
  = (inl (RuntimeError ("WRITE_MEM: invalid data address " +:+ str addr)),
     mkUVM (code_memory self) (program_size self) (data_memory self)
           s (ip self + 5),
     n + 1).
Proof using Hcode Hstack.
  intros Ha. fetch_write.
  erewrite pop_top by exact Hstack. cbv beta iota. run_bind. unfold get.
  assert (Hf : forall st, data_memory st = data_memory self ->
                          in_data st addr = false).
  { intros st E. apply in_data_false. rewrite E. lia. }
  decide_in_data false Hf.
  unfold raise. same_state.
Qed.

Lemma cycle_write_ok :
  addr < Z.of_nat (length (data_memory self)) ->
  cycle n self
  = (inr (n + 1),
     mkUVM (code_memory self) (program_size self)
           (<[Z.to_nat addr := byte_of_Z (Z.land v 255)]> (data_memory self))
           s (ip self + 5),
     n + 1).
Proof using Hcode Hstack.
  intros Ha. pose proof (dword_range b0 b1 b2 b3) as Hr. fold addr in Hr.
  fetch_write.
  erewrite pop_top by exact Hstack. cbv beta iota. run_bind. unfold get.
  assert (Ht : forall st, data_memory st = data_memory self ->
                          in_data st addr = true).
  { intros st E. apply in_data_true. rewrite E. lia. }
  decide_in_data true Ht.
  change (negb true) with false. cbv beta iota. unfold data_set.
  pose proof (land_255_range v) as Hv.
  destruct (Z.ltb_spec (Z.land v 255) 0); [lia|].
  destruct (Z.ltb_spec 255 (Z.land v 255)); [lia|].
  simpl orb. cbv iota. simpl data_memory.
  destruct (data_lookup self addr) as [b [_ Hb]]; [lia|].
  fold addr. rewrite Hb.
  destruct (Z.ltb_spec addr 0); [lia|]. same_state.
Qed.

End write_mem_cycle.

Section sgn_cycle.
Variables (self : UVMInterpreter) (pre post : list byte) (n : Z).
Hypothesis Hcode : fetches self pre [x9a] post.

Ltac fetch_sgn :=
  fetch_opcode Hcode;
  change (Z_of_byte x9a =? 74) with false;
  change (Z_of_byte x9a =? 135) with false;
  change (Z_of_byte x9a =? 213) with false;
  change (Z_of_byte x9a =? 154) with true; cbv iota; run_bind.

Lemma cycle_sgn_underflow :
  stack self = [] ->
  cycle n self
  = (inl (RuntimeError "Stack underflow"), set_ip self (ip self + 1), n + 1).
Proof using Hcode.
  intros Hs. fetch_sgn. erewrite pop_empty by exact Hs. same_state.
Qed.

Variables (s : list Z) (addr : Z).
Hypothesis Hstack : stack self = s ++ [addr].

Lemma cycle_sgn_invalid :
  ~ (0 <= addr < Z.of_nat (length (data_memory self))) ->
  cycle n self
  = (inl (RuntimeError ("SGN: invalid data address " +:+ str addr)),
     mkUVM (code_memory self) (program_size self) (data_memory self)
           s (ip self + 1),
     n + 1).
Proof using Hcode Hstack.
  intros Ha. fetch_sgn.
  erewrite pop_top by exact Hstack. cbv beta iota. run_bind. unfold get.
  assert (Hf : forall st, data_memory st = data_memory self ->
                          in_data st addr = false).
  { intros st E. apply in_data_false. rewrite E. exact Ha. }
  decide_in_data false Hf.
  unfold raise. same_state.
Qed.

Lemma cycle_sgn_ok b :
  0 <= addr ->
  data_memory self !! Z.to_nat addr = Some b ->
  cycle n self
  = (inr (n + 1),
     mkUVM (code_memory self) (program_size self) (data_memory self)
           (s ++ [sgn_result (Z_of_byte b)]) (ip self + 1),
     n + 1).
Proof using Hcode Hstack.
  intros Ha Hb. fetch_sgn.
  erewrite pop_top by exact Hstack. cbv beta iota. run_bind. unfold get.
  assert (Ht : forall st, data_memory st = data_memory self ->
                          in_data st addr = true).
  { intros st E. apply in_data_true. rewrite E.
    apply lookup_lt_Some in Hb. lia. }
  decide_in_data true Ht.
  change (negb true) with false. cbv beta iota. run_bind. unfold data_get.
  simpl data_memory. rewrite index_nonneg by exact Ha.
  rewrite Hb. same_state.
Qed.

End sgn_cycle.

Lemma cycle_unknown self pre op post n :
  fetches self pre [op] post ->
  Z_of_byte op <> 74 -> Z_of_byte op <> 135 ->
  Z_of_byte op <> 213 -> Z_of_byte op <> 154 ->
  cycle n self
  = (inl (RuntimeError ("Unknown opcode: 0x" +:+ format_X 2 (Z_of_byte op)
                        +:+ " at IP=0x" +:+ format_X 4 (ip self))),
     set_ip self (ip self + 1), n + 1).
Proof.
  intros H H1 H2 H3 H4. fetch_opcode H.
  destruct (Z.eqb_spec (Z_of_byte op) 74); [contradiction|].
  destruct (Z.eqb_spec (Z_of_byte op) 135); [contradiction|].
  destruct (Z.eqb_spec (Z_of_byte op) 213); [contradiction|].
  destruct (Z.eqb_spec (Z_of_byte op) 154); [contradiction|].
  reflexivity.
Qed.

(** ** The encoder *)

Lemma Z_of_byte_of_Z_low (z : Z) : Z_of_byte (byte_of_Z z) = z mod 2 ^ 8.
Proof.
  pose proof (Z.mod_pos_bound z (2 ^ 8)) as Hm.
  assert (E : byte_of_Z z = byte_of_Z (z mod 2 ^ 8)).
  { unfold byte_of_Z. change 255 with (Z.ones 8).
    rewrite !Z.land_ones by lia. rewrite Z.mod_mod by lia. reflexivity. }
  rewrite E. apply Z_of_byte_of_Z. lia.
Qed.

Lemma le_bytes_byte (v : Z) :
  0 <= v < 2 ^ 8 -> exists b, le_bytes 1 v = [b] /\ Z_of_byte b = v.
Proof.
  intros Hv. eexists. split; [reflexivity|].
  rewrite Z_of_byte_of_Z_low. change 255 with (Z.ones 8).
  rewrite Z.land_ones by lia. rewrite Z.mod_mod by lia.
  apply Z.mod_small. exact Hv.
Qed.

Lemma le_bytes_dword (v : Z) :
  0 <= v < 2 ^ 32 ->
  exists b0 b1 b2 b3, le_bytes 4 v = [b0; b1; b2; b3] /\ dword b0 b1 b2 b3 = v.
Proof.
  intros Hv. do 4 eexists. split; [reflexivity|].
  unfold dword. rewrite !Z_of_byte_of_Z_low.
  change 255 with (Z.ones 8). rewrite !Z.land_ones by lia.
  rewrite !Z.mod_mod by lia. rewrite !Z.shiftr_div_pow2 by lia.
  change (2 ^ 8) with 256. change (2 ^ 16) with 65536.
  change (2 ^ 24) with 16777216. change (2 ^ 32) with 4294967296 in Hv.
  Z.div_mod_to_equations. lia.
Qed.

Lemma to_bytes_byte (v : Z) :
  0 <= v < 2 ^ 8 -> to_bytes v 1 = inr (le_bytes 1 v).
Proof.
  intros Hv. unfold to_bytes.
  destruct (Z.ltb_spec v 0); [lia|].
  change (2 ^ (8 * Z.of_nat 1)) with (2 ^ 8).
  destruct (Z.leb_spec (2 ^ 8) v); [lia|]. reflexivity.
Qed.

Lemma to_bytes_dword (v : Z) :
  0 <= v < 2 ^ 32 -> to_bytes v 4 = inr (le_bytes 4 v).
Proof.
  intros Hv. unfold to_bytes.
  destruct (Z.ltb_spec v 0); [lia|].
  change (2 ^ (8 * Z.of_nat 4)) with (2 ^ 32).
  destruct (Z.leb_spec (2 ^ 32) v); [lia|]. reflexivity.
Qed.

Lemma to_binary_load v line :
  0 <= v < 2 ^ 32 ->
  to_binary (mkInstruction LOAD_CONST (Some v) line) = inr (x4a :: le_bytes 4 v).
Proof.
  intros Hv. unfold to_binary. cbn [opcode operand assembler.bind].
  change (to_bytes (value LOAD_CONST) 1) with (@inr exn _ [x4a]).
  cbv beta iota delta [assembler.bind]. rewrite to_bytes_dword by exact Hv.
  reflexivity.
Qed.

Lemma to_binary_write a line :
  0 <= a < 2 ^ 32 ->
  to_binary (mkInstruction WRITE_MEM (Some a) line) = inr (xd5 :: le_bytes 4 a).
Proof.
  intros Hv. unfold to_binary. cbn [opcode operand].
  change (to_bytes (value WRITE_MEM) 1) with (@inr exn _ [xd5]).
  cbv beta iota delta [assembler.bind]. rewrite to_bytes_dword by exact Hv.
  reflexivity.
Qed.

Lemma to_binary_read off line :
  0 <= off <= 63 ->
  to_binary (mkInstruction READ_MEM (Some off) line) = inr (x87 :: le_bytes 1 off).
Proof.
  intros Hv. unfold to_binary. cbn [opcode operand].
  destruct (Z.gtb_spec off 63); [lia|].
  change (to_bytes (value READ_MEM) 1) with (@inr exn _ [x87]).
  cbv beta iota delta [assembler.bind].
  rewrite to_bytes_byte by (change (2 ^ 8) with 256; lia).
  reflexivity.
Qed.

Lemma to_binary_sgn o line :
  to_binary (mkInstruction SGN o line) = inr [x9a].
Proof. reflexivity. Qed.

(** C1.  Each instruction form is encoded with the layout of the ISA table:
    [load v] is the byte 74 (0x4A) and the four little-endian bytes of [v],
    [read off] is the byte 135 (0x87) and the byte [off], [write a] is the
    byte 213 (0xD5) and the four little-endian bytes of [a], [sgn] is the
    single byte 154 (0x9A); [load 468] gives 4A D4 01 00 00. *)
Theorem to_binary_layout :
  (forall v line, 0 <= v < 2 ^ 32 ->
     exists b0 b1 b2 b3,
       to_binary (mkInstruction LOAD_CONST (Some v) line)
       = inr [x4a; b0; b1; b2; b3]
       /\ Z_of_byte x4a = 74
       /\ Z_of_byte b0 + 2 ^ 8 * Z_of_byte b1 + 2 ^ 16 * Z_of_byte b2
          + 2 ^ 24 * Z_of_byte b3 = v)
  /\ (forall off line, 0 <= off <= 63 ->
        exists b,
          to_binary (mkInstruction READ_MEM (Some off) line) = inr [x87; b]
          /\ Z_of_byte x87 = 135 /\ Z_of_byte b = off)
  /\ (forall a line, 0 <= a < 2 ^ 32 ->
        exists b0 b1 b2 b3,
          to_binary (mkInstruction WRITE_MEM (Some a) line)
          = inr [xd5; b0; b1; b2; b3]
          /\ Z_of_byte xd5 = 213
          /\ Z_of_byte b0 + 2 ^ 8 * Z_of_byte b1 + 2 ^ 16 * Z_of_byte b2
             + 2 ^ 24 * Z_of_byte b3 = a)
  /\ (forall o line,
        to_binary (mkInstruction SGN o line) = inr [x9a]
        /\ Z_of_byte x9a = 154)
  /\ to_binary (load 468) = inr [x4a; xd4; x01; x00; x00].
Proof.
  repeat split.
  - intros v line Hv. destruct (le_bytes_dword v Hv) as (b0 & b1 & b2 & b3 & E & Hd).
    exists b0, b1, b2, b3. rewrite to_binary_load by exact Hv. rewrite E.
    repeat split. exact Hd.
  - intros off line Hv.
    destruct (le_bytes_byte off) as (b & E & Hb); [change (2 ^ 8) with 256; lia|].
    exists b. rewrite to_binary_read by exact Hv. rewrite E. repeat split. exact Hb.
  - intros a line Hv. destruct (le_bytes_dword a Hv) as (b0 & b1 & b2 & b3 & E & Hd).
    exists b0, b1, b2, b3. rewrite to_binary_write by exact Hv. rewrite E.
    repeat split. exact Hd.
Qed.

Lemma to_binary_layout_witness :
  0 <= 224 < 2 ^ 32
  /\ exists b0 b1 b2 b3,
       to_binary (mkInstruction WRITE_MEM (Some 224) 3) = inr [xd5; b0; b1; b2; b3]
       /\ Z_of_byte xd5 = 213
       /\ Z_of_byte b0 + 2 ^ 8 * Z_of_byte b1 + 2 ^ 16 * Z_of_byte b2
          + 2 ^ 24 * Z_of_byte b3 = 224.
Proof.
  split; [lia|].
  apply (proj1 (proj2 (proj2 to_binary_layout)) 224 3). lia.
Defined.

(** C5.  With an offset given, [read] is refused with the "Offset too large"
    [ValueError] exactly when the offset is greater than 63: 64 is refused,
    63 is encoded and its operand byte is 0x3F. *)
Theorem read_offset_range :
  (forall off line,
     off > 63 <->
     to_binary (mkInstruction READ_MEM (Some off) line)
     = inl (ValueError ("Line " +:+ str line +:+ ": Offset too large: "
                        +:+ str off +:+ ". Max 63.")))
  /\ (forall off line msg,
        to_binary (mkInstruction READ_MEM (Some off) line) = inl (ValueError msg)
        -> off > 63)
  /\ to_binary (read 64) = inl (ValueError "Line 0: Offset too large: 64. Max 63.")
  /\ to_binary (read 63) = inr [x87; x3f].
Proof.
  assert (Hno : forall off line msg,
             to_binary (mkInstruction READ_MEM (Some off) line)
             = inl (ValueError msg) -> off > 63).
  { intros off line msg. unfold to_binary. cbn [opcode operand].
    destruct (Z.gtb_spec off 63) as [Hgt|Hle]; [lia|].
    change (to_bytes (value READ_MEM) 1) with (@inr exn _ [x87]).
    cbv beta iota delta [assembler.bind]. unfold to_bytes.
    destruct (off <? 0); [discriminate|].
    destruct (2 ^ (8 * Z.of_nat 1) <=? off); discriminate. }
  repeat split.
  - intros Hgt. unfold to_binary. cbn [opcode operand line_number].
    destruct (Z.gtb_spec off 63); [reflexivity|lia].
  - apply Hno.
  - exact Hno.
Qed.

Lemma read_offset_range_witness :
  to_binary (mkInstruction READ_MEM (Some 200) 7)
  = inl (ValueError "Line 7: Offset too large: 200. Max 63.")
  /\ 200 > 63.
Proof.
  assert (E : to_binary (mkInstruction READ_MEM (Some 200) 7)
              = inl (ValueError "Line 7: Offset too large: 200. Max 63."))
    by reflexivity.
  split; [exact E|].
  exact (proj1 (proj2 read_offset_range) 200 7 _ E).
Defined.

(** C7.  For every instruction whose operand is legal for its opcode,
    [get_size] is the length of the bytes that [to_binary] returns: 5 for
    [load], 2 for [read], 5 for [write], 1 for [sgn]. *)
Theorem get_size_is_encoded_length (i : Instruction) :
  legal i = true ->
  exists bs,
    to_binary i = inr bs
    /\ get_size i = Z.of_nat (length bs)
    /\ get_size i = match opcode i with
                    | LOAD_CONST => 5
                    | READ_MEM => 2
                    | WRITE_MEM => 5
                    | SGN => 1
                    end.
Proof.
  destruct i as [op o line]. unfold legal. cbn [opcode operand].
  destruct op, o as [v|]; try discriminate; intros Hl;
    try (apply andb_true_iff in Hl; destruct Hl as [H0 H1];
         apply Z.leb_le in H0).
  - apply Z.ltb_lt in H1. eexists. rewrite to_binary_load by lia.
    repeat split.
  - apply Z.leb_le in H1. eexists. rewrite to_binary_read by lia.
    repeat split.
  - apply Z.ltb_lt in H1. eexists. rewrite to_binary_write by lia.
    repeat split.
  - eexists. rewrite to_binary_sgn. repeat split.
  - eexists. rewrite to_binary_sgn. repeat split.
Qed.

Lemma get_size_is_encoded_length_witness :
  legal (read 15) = true
  /\ exists bs,
       to_binary (read 15) = inr bs
       /\ get_size (read 15) = Z.of_nat (length bs)
       /\ get_size (read 15) = 2.
Proof.
  split; [reflexivity|].
  apply (get_size_is_encoded_length (read 15)). reflexivity.
Defined.

(** ** The memory instructions *)

(** C2.  [READ_MEM] on a non-empty stack pops [base], addresses
    [base + (offset_byte & 0x3F)], raises the invalid-address error when that
    is outside the data memory and otherwise pushes the byte stored there, a
    value in 0..255; [load 0; read 5] with [data[5] = 200] ends with the
    stack [200]. *)
Theorem read_mem_semantics :
  (forall self pre off post s base n,
     fetches self pre [x87; off] post ->
     stack self = s ++ [base] ->
     let addr := base + Z.land (Z_of_byte off) 63 in
     (~ (0 <= addr < Z.of_nat (length (data_memory self))) ->
      cycle n self
      = (inl (RuntimeError ("READ_MEM: invalid data address " +:+ str addr)),
         mkUVM (code_memory self) (program_size self) (data_memory self)
               s (ip self + 2),
         n + 1))
     /\ (0 <= addr < Z.of_nat (length (data_memory self)) ->
         exists b,
           data_memory self !! Z.to_nat addr = Some b
           /\ 0 <= Z_of_byte b <= 255
           /\ cycle n self
              = (inr (n + 1),
                 mkUVM (code_memory self) (program_size self) (data_memory self)
                       (s ++ [Z_of_byte b]) (ip self + 2),
                 n + 1)))
  /\ (let final := execute (machine_with 5 xc8 (program [load 0; read 5])) in
      Z_of_byte xc8 = 200
      /\ fst final = Finished 2
      /\ stack (snd final) = [200]).
Proof.
  split.
  - intros self pre off post s base n Hc Hs addr. split.
    + intros Ha. exact (cycle_read_invalid self pre post off n Hc s base Hs Ha).
    + intros Ha. destruct (data_lookup self addr Ha) as [b [Hb _]].
      exists b. split; [exact Hb|]. split; [apply Z_of_byte_range|].
      apply (cycle_read_ok self pre post off n Hc s base Hs b); [apply Ha|exact Hb].
  - vm_compute. repeat split.
Qed.

Lemma read_mem_semantics_witness :
  let self := mkUVM [x87; xc5] 2 [x00; x01; x02; x03; x04; x05; x06; x07] [9; 1] 0 in
  fetches self [] [x87; xc5] []
  /\ stack self = [9] ++ [1]
  /\ exists b,
       data_memory self !! 6%nat = Some b
       /\ 0 <= Z_of_byte b <= 255
       /\ cycle 0 self
          = (inr 1, mkUVM [x87; xc5] 2 [x00; x01; x02; x03; x04; x05; x06; x07]
                          [9; Z_of_byte b] 2, 1).
Proof.
  intros self.
  assert (Hf : fetches self [] [x87; xc5] []) by (repeat split).
  assert (Hs : stack self = [9] ++ [1]) by reflexivity.
  split; [exact Hf|]. split; [exact Hs|].
  apply (proj2 (proj1 read_mem_semantics self [] xc5 [] [9] 1 0 Hf Hs)).
  vm_compute. split; [discriminate|reflexivity].
Defined.

(** C3.  [WRITE_MEM] on a non-empty stack with its operand inside the data
    memory pops one value and stores [value & 0xFF] at the address given by
    the operand of the instruction, not by the stack; the rest of the stack
    stays.  [load 100; load 42; write 100] ends with the stack [100] and
    [data[100] = 42]. *)
Theorem write_mem_semantics :
  (forall self pre b0 b1 b2 b3 post s v n,
     fetches self pre [xd5; b0; b1; b2; b3] post ->
     stack self = s ++ [v] ->
     let addr := dword b0 b1 b2 b3 in
     0 <= addr < Z.of_nat (length (data_memory self)) ->
     exists b,
       Z_of_byte b = Z.land v 255
       /\ cycle n self
          = (inr (n + 1),
             mkUVM (code_memory self) (program_size self)
                   (<[Z.to_nat addr := b]> (data_memory self))
                   s (ip self + 5),
             n + 1)
       /\ <[Z.to_nat addr := b]> (data_memory self) !! Z.to_nat addr = Some b)
  /\ (let final := execute (load_program (init 1024)
                              (program [load 100; load 42; write 100])) in
      fst final = Finished 3
      /\ stack (snd final) = [100]
      /\ Z_of_byte <$> (data_memory (snd final) !! 100%nat) = Some 42).
Proof.
  split.
  - intros self pre b0 b1 b2 b3 post s v n Hc Hs addr Ha.
    exists (byte_of_Z (Z.land v 255)). split; [|split].
    + apply Z_of_byte_of_Z, land_255_range.
    + apply (cycle_write_ok self pre post b0 b1 b2 b3 n Hc s v Hs). apply Ha.
    + apply list_lookup_insert_eq. lia.
  - vm_compute. repeat split.
Qed.

Lemma write_mem_semantics_witness :
  let self := mkUVM [xd5; x02; x00; x00; x00] 5 [x00; x00; x00; x00] [7; 300] 0 in
  fetches self [] [xd5; x02; x00; x00; x00] []
  /\ stack self = [7] ++ [300]
  /\ 0 <= dword x02 x00 x00 x00 < 4
  /\ exists b,
       Z_of_byte b = Z.land 300 255
       /\ cycle 0 self
          = (inr 1, mkUVM [xd5; x02; x00; x00; x00] 5
                          (<[2%nat := b]> [x00; x00; x00; x00]) [7] 5, 1)
       /\ <[2%nat := b]> [x00; x00; x00; x00] !! 2%nat = Some b.
Proof.
  intros self.
  assert (Hf : fetches self [] [xd5; x02; x00; x00; x00] []) by (repeat split).
  assert (Hs : stack self = [7] ++ [300]) by reflexivity.
  assert (Ha : 0 <= dword x02 x00 x00 x00 < 4) by (vm_compute; split; [discriminate|reflexivity]).
  split; [exact Hf|]. split; [exact Hs|]. split; [exact Ha|].
  exact (proj1 write_mem_semantics self [] x02 x00 x00 x00 [] [7] 300 0 Hf Hs Ha).
Defined.

(** C4.  [SGN] on a non-empty stack pops an address, raises the
    invalid-address error when it is outside the data memory, and otherwise
    reads the byte there as a signed 8-bit two's-complement number and pushes
    its sign: 0 for the byte 0, +1 for 1..127, -1 for 128..255. *)
Theorem sgn_semantics :
  forall self pre post s addr n,
    fetches self pre [x9a] post ->
    stack self = s ++ [addr] ->
    (~ (0 <= addr < Z.of_nat (length (data_memory self))) ->
     cycle n self
     = (inl (RuntimeError ("SGN: invalid data address " +:+ str addr)),
        mkUVM (code_memory self) (program_size self) (data_memory self)
              s (ip self + 1),
        n + 1))
    /\ (0 <= addr < Z.of_nat (length (data_memory self)) ->
        exists b signed_val,
          data_memory self !! Z.to_nat addr = Some b
          /\ -128 <= signed_val <= 127
          /\ signed_val mod 256 = Z_of_byte b
          /\ cycle n self
             = (inr (n + 1),
                mkUVM (code_memory self) (program_size self) (data_memory self)
                      (s ++ [Z.sgn signed_val]) (ip self + 1),
                n + 1)
          /\ (Z_of_byte b = 0 -> Z.sgn signed_val = 0)
          /\ (1 <= Z_of_byte b <= 127 -> Z.sgn signed_val = 1)
          /\ (128 <= Z_of_byte b <= 255 -> Z.sgn signed_val = -1)).
Proof.
  intros self pre post s addr n Hc Hs. split.
  - intros Ha. exact (cycle_sgn_invalid self pre post n Hc s addr Hs Ha).
  - intros Ha. destruct (data_lookup self addr Ha) as [b [Hb _]].
    pose proof (Z_of_byte_range b) as Hr.
    exists b, (unpack_b (Z_of_byte b)).
    assert (Hu : unpack_b (Z_of_byte b)
                 = if Z_of_byte b <? 128 then Z_of_byte b else Z_of_byte b - 256)
      by reflexivity.
    assert (Hsgn : sgn_result (Z_of_byte b) = Z.sgn (unpack_b (Z_of_byte b))).
    { unfold sgn_result.
      destruct (Z.gtb_spec (unpack_b (Z_of_byte b)) 0);
        destruct (Z.ltb_spec (unpack_b (Z_of_byte b)) 0); lia. }
    split; [exact Hb|].
    destruct (Z.ltb_spec (Z_of_byte b) 128) as [Hlt|Hge].
    + rewrite Hu. repeat split; try lia.
      * apply Z.mod_small. lia.
      * rewrite <- Hu, <- Hsgn.
        apply (cycle_sgn_ok self pre post n Hc s addr Hs b); [apply Ha|exact Hb].
    + rewrite Hu. repeat split; try lia.
      * rewrite <- (Z.mod_small (Z_of_byte b) 256) at 2 by lia.
        replace (Z_of_byte b - 256) with (Z_of_byte b + (-1) * 256) by lia.
        apply Z.mod_add. lia.
      * rewrite <- Hu, <- Hsgn.
        apply (cycle_sgn_ok self pre post n Hc s addr Hs b); [apply Ha|exact Hb].
Qed.

Lemma sgn_semantics_witness :
  let self := mkUVM [x9a] 1 [x00; x7f; x80; xff] [5; 2] 0 in
  fetches self [] [x9a] []
  /\ stack self = [5] ++ [2]
  /\ 0 <= 2 < Z.of_nat (length (data_memory self))
  /\ exists b signed_val,
       data_memory self !! Z.to_nat 2 = Some b
       /\ -128 <= signed_val <= 127
       /\ signed_val mod 256 = Z_of_byte b
       /\ cycle 0 self
          = (inr 1, mkUVM [x9a] 1 [x00; x7f; x80; xff] ([5] ++ [Z.sgn signed_val]) 1, 1)
       /\ (Z_of_byte b = 0 -> Z.sgn signed_val = 0)
       /\ (1 <= Z_of_byte b <= 127 -> Z.sgn signed_val = 1)
       /\ (128 <= Z_of_byte b <= 255 -> Z.sgn signed_val = -1).
Proof.
  intros self.
  assert (Hf : fetches self [] [x9a] []) by (repeat split).
  assert (Hs : stack self = [5] ++ [2]) by reflexivity.
  assert (Ha : 0 <= 2 < Z.of_nat (length (data_memory self))) by (simpl; lia).
  split; [exact Hf|]. split; [exact Hs|]. split; [exact Ha|].
  exact (proj2 (sgn_semantics self [] [] [5] 2 0 Hf Hs) Ha).
Defined.

(** C6.  On an empty stack [READ_MEM], [WRITE_MEM] and [SGN] raise the
    stack-underflow error; the machine is left as it was except for the
    instruction pointer, so no byte of data memory is written. *)
Theorem empty_stack_underflow :
  forall self n,
    stack self = [] ->
    (forall pre off post,
       fetches self pre [x87; off] post ->
       exists self',
         cycle n self = (inl (RuntimeError "Stack underflow"), self', n + 1)
         /\ data_memory self' = data_memory self /\ stack self' = [])
    /\ (forall pre b0 b1 b2 b3 post,
          fetches self pre [xd5; b0; b1; b2; b3] post ->
          exists self',
            cycle n self = (inl (RuntimeError "Stack underflow"), self', n + 1)
            /\ data_memory self' = data_memory self /\ stack self' = [])
    /\ (forall pre post,
          fetches self pre [x9a] post ->
          exists self',
            cycle n self = (inl (RuntimeError "Stack underflow"), self', n + 1)
            /\ data_memory self' = data_memory self /\ stack self' = []).
Proof.
  intros self n Hs. repeat split.
  - intros pre off post Hc. eexists. split; [|split].
    + exact (cycle_read_underflow self pre post off n Hc Hs).
    + reflexivity.
    + exact Hs.
  - intros pre b0 b1 b2 b3 post Hc. eexists. split; [|split].
    + exact (cycle_write_underflow self pre post b0 b1 b2 b3 n Hc Hs).
    + reflexivity.
    + exact Hs.
  - intros pre post Hc. eexists. split; [|split].
    + exact (cycle_sgn_underflow self pre post n Hc Hs).
    + reflexivity.
    + exact Hs.
Qed.

Lemma empty_stack_underflow_witness :
  let self := mkUVM [x4a; x01; x00; x00; x00; xd5; x02; x00; x00; x00] 10
                    [x11; x22; x33; x44] [] 5 in
  stack self = []
  /\ fetches self [x4a; x01; x00; x00; x00] [xd5; x02; x00; x00; x00] []
  /\ exists self',
       cycle 1 self = (inl (RuntimeError "Stack underflow"), self', 1 + 1)
       /\ data_memory self' = [x11; x22; x33; x44] /\ stack self' = [].
Proof.
  intros self.
  assert (Hs : stack self = []) by reflexivity.
  assert (Hf : fetches self [x4a; x01; x00; x00; x00] [xd5; x02; x00; x00; x00] [])
    by (repeat split).
  split; [exact Hs|]. split; [exact Hf|].
  exact (proj1 (proj2 (empty_stack_underflow self 1 Hs)) _ _ _ _ _ _ Hf).
Defined.

(** C10.  When [WRITE_MEM] on a non-empty stack raises the invalid-address
    error, the value has already been popped: the stack is one element
    shorter than before the instruction, and data memory is unchanged. *)
Theorem write_invalid_address_pops :
  forall self pre b0 b1 b2 b3 post n,
    fetches self pre [xd5; b0; b1; b2; b3] post ->
    stack self <> [] ->
    let addr := dword b0 b1 b2 b3 in
    ~ (0 <= addr < Z.of_nat (length (data_memory self))) ->
    exists self',
      cycle n self
      = (inl (RuntimeError ("WRITE_MEM: invalid data address " +:+ str addr)),
         self', n + 1)
      /\ S (length (stack self')) = length (stack self)
      /\ stack self' = removelast (stack self)
      /\ data_memory self' = data_memory self.
Proof.
  intros self pre b0 b1 b2 b3 post n Hc Hne addr Ha.
  destruct (nonempty_snoc _ Hne) as (s & v & Hs).
  pose proof (dword_range b0 b1 b2 b3) as Hr. fold addr in Hr.
  eexists. split; [|split; [|split]].
  - apply (cycle_write_invalid self pre post b0 b1 b2 b3 n Hc s v Hs).
    fold addr. lia.
  - simpl. rewrite Hs, length_app. simpl. lia.
  - simpl. rewrite Hs, removelast_last. reflexivity.
  - reflexivity.
Qed.

Lemma write_invalid_address_pops_witness :
  let self := mkUVM [xd5; x04; x00; x00; x00] 5 [x00; x00; x00; x00] [7; 8; 9] 0 in
  fetches self [] [xd5; x04; x00; x00; x00] []
  /\ stack self <> []
  /\ ~ (0 <= dword x04 x00 x00 x00 < Z.of_nat (length (data_memory self)))
  /\ exists self',
       cycle 0 self
       = (inl (RuntimeError ("WRITE_MEM: invalid data address "
                             +:+ str (dword x04 x00 x00 x00))), self', 0 + 1)
       /\ S (length (stack self')) = length (stack self)
       /\ stack self' = removelast (stack self)
       /\ data_memory self' = data_memory self.
Proof.
  intros self.
  assert (Hf : fetches self [] [xd5; x04; x00; x00; x00] []) by (repeat split).
  assert (Hs : stack self <> []) by discriminate.
  assert (Ha : ~ (0 <= dword x04 x00 x00 x00 < Z.of_nat (length (data_memory self))))
    by (vm_compute; intros [_ H]; discriminate H).
  split; [exact Hf|]. split; [exact Hs|]. split; [exact Ha|].
  exact (write_invalid_address_pops self [] x04 x00 x00 x00 [] 0 Hf Hs Ha).
Defined.

(** ** The loop *)

Ltac split_cases :=
  repeat match goal with
         | H : (_, _) = (_, _) |- _ => inversion H; clear H; subst
         | H : context [if ?c then _ else _] |- _ => destruct c eqn:?
         | H : context [match ?x with _ => _ end] |- _ => destruct x eqn:?
         end.

Ltac unfold_methods H :=
  cbv beta iota zeta delta
      [dispatch interpreter.bind read_byte_from_code read_dword_from_code
       pop push get raise modify data_get data_set] in H.

Lemma dispatch_frame opcode start_ip self r self' :
  dispatch opcode start_ip self = (r, self') ->
  ip self <= ip self'
  /\ code_memory self' = code_memory self
  /\ program_size self' = program_size self.
Proof.
  intros H. unfold_methods H. split_cases; simpl; repeat split; lia.
Qed.

Lemma fetches_any self :
  program_size self = Z.of_nat (length (code_memory self)) ->
  0 <= ip self < program_size self ->
  exists pre b post, fetches self pre [b] post.
Proof.
  intros Hp Hi.
  destruct (lookup_lt_is_Some_2 (code_memory self) (Z.to_nat (ip self)))
    as [b Hb]; [lia|].
  exists (take (Z.to_nat (ip self)) (code_memory self)), b,
         (drop (S (Z.to_nat (ip self))) (code_memory self)).
  repeat split.
  - symmetry. apply take_drop_middle. exact Hb.
  - rewrite length_take. apply lookup_lt_Some in Hb. lia.
  - exact Hp.
Qed.

Lemma cycle_progress self n r self' m :
  program_size self = Z.of_nat (length (code_memory self)) ->
  0 <= ip self < program_size self ->
  cycle n self = (r, self', m) ->
  ip self < ip self'
  /\ code_memory self' = code_memory self
  /\ program_size self' = program_size self
  /\ m = n + 1.
Proof.
  intros Hp Hi H. destruct (fetches_any self Hp Hi) as (pre & b & post & Hf).
  unfold cycle in H. rewrite (read_byte_from_code_at _ _ _ _ _ Hf) in H.
  destruct (dispatch (Z_of_byte b) (ip self) (set_ip self (ip self + 1)))
    as [r' self''] eqn:E.
  apply dispatch_frame in E. simpl in E. destruct E as (E1 & E2 & E3).
  destruct r'; inversion H; subst; repeat split; auto; lia.
Qed.

Lemma while_loop_terminates fuel :
  forall n self,
    program_size self = Z.of_nat (length (code_memory self)) ->
    0 <= ip self ->
    (Z.to_nat (program_size self - ip self) <= fuel)%nat ->
    fst (while_loop fuel n self) <> OutOfFuel.
Proof.
  induction fuel as [|fuel IH]; intros n self Hp Hi Hf; simpl.
  - destruct (Z.ltb_spec (ip self) (program_size self)); [lia|discriminate].
  - destruct (Z.ltb_spec (ip self) (program_size self)); [|discriminate].
    destruct (cycle n self) as [[r self'] m] eqn:E.
    destruct (cycle_progress _ _ _ _ _ Hp (conj Hi H) E) as (H1 & H2 & H3 & _).
    destruct r; [discriminate|].
    apply IH; [rewrite H3, H2; exact Hp | lia | lia].
Qed.

Lemma while_loop_more_fuel fuel :
  forall n self extra,
    fst (while_loop fuel n self) <> OutOfFuel ->
    while_loop (fuel + extra) n self = while_loop fuel n self.
Proof.
  induction fuel as [|fuel IH]; intros n self extra H; simpl in *.
  - destruct (ip self <? program_size self) eqn:E.
    + exfalso. apply H. reflexivity.
    + destruct extra; simpl; rewrite E; reflexivity.
  - destruct (ip self <? program_size self); [|reflexivity].
    destruct (cycle n self) as [[r self'] m].
    destruct r; [reflexivity|]. apply IH. exact H.
Qed.

(** ** Well-formed programs *)

Lemma Z_of_byte_inj (a b : byte) : Z_of_byte a = Z_of_byte b -> a = b.
Proof.
  unfold Z_of_byte. intros H. apply N2Z.inj in H.
  pose proof (Byte.of_to_N a) as Ha. rewrite H, Byte.of_to_N in Ha.
  congruence.
Qed.

Lemma instructions_cons code k :
  instructions code = Some (S k) ->
  exists instr rest,
    code = instr ++ rest /\ instruction_bytes instr /\ instructions rest = Some k.
Proof.
  destruct code as [|op rest]; [discriminate|]. simpl.
  assert (Hopt : forall l, option_map S (instructions l) = Some (S k) ->
                           instructions l = Some k).
  { intros l. destruct (instructions l); simpl; congruence. }
  destruct (Z.eqb_spec (Z_of_byte op) 74) as [E|_].
  { apply (Z_of_byte_inj op x4a) in E. subst op.
    destruct rest as [|b0 [|b1 [|b2 [|b3 rest]]]]; try discriminate.
    intros H. exists [x4a; b0; b1; b2; b3], rest.
    repeat split; [constructor | apply Hopt, H]. }
  destruct (Z.eqb_spec (Z_of_byte op) 135) as [E|_].
  { apply (Z_of_byte_inj op x87) in E. subst op.
    destruct rest as [|off rest]; try discriminate.
    intros H. exists [x87; off], rest.
    repeat split; [constructor | apply Hopt, H]. }
  destruct (Z.eqb_spec (Z_of_byte op) 213) as [E|_].
  { apply (Z_of_byte_inj op xd5) in E. subst op.
    destruct rest as [|b0 [|b1 [|b2 [|b3 rest]]]]; try discriminate.
    intros H. exists [xd5; b0; b1; b2; b3], rest.
    repeat split; [constructor | apply Hopt, H]. }
  destruct (Z.eqb_spec (Z_of_byte op) 154) as [E|_]; [|discriminate].
  apply (Z_of_byte_inj op x9a) in E. subst op.
  intros H. exists [x9a], rest.
  repeat split; [constructor | apply Hopt, H].
Qed.

Lemma instructions_none code : instructions code = Some O -> code = [].
Proof.
  destruct code as [|op rest]; [reflexivity|]. simpl.
  assert (Hopt : forall l, option_map S (instructions l) <> Some O).
  { intros l. destruct (instructions l); simpl; congruence. }
  repeat match goal with
         | |- context [if ?c then _ else _] => destruct c
         | |- context [match ?x with _ => _ end] => destruct x
         end; intros H; try discriminate; exfalso; exact (Hopt _ H).
Qed.

Lemma instruction_bytes_cons instr :
  instruction_bytes instr -> exists b bs, instr = b :: bs.
Proof. intros []; eauto. Qed.

Lemma cycle_instruction self pre instr post n :
  instruction_bytes instr ->
  fetches self pre instr post ->
  (exists self',
     cycle n self = (inr (n + 1), self', n + 1)
     /\ code_memory self' = code_memory self
     /\ program_size self' = program_size self
     /\ ip self' = Z.of_nat (length (pre ++ instr)))
  \/ (exists msg self',
        cycle n self = (inl (RuntimeError msg), self', n + 1)
        /\ (StackUnderflow msg \/ InvalidAddress msg)).
Proof.
  intros Hi Hf. pose proof Hf as (Hc & Hip & Hp).
  assert (Hstack : stack self = [] \/ exists s v, stack self = s ++ [v]).
  { destruct (stack self) as [|x l] eqn:E; [left; reflexivity|].
    right. apply nonempty_snoc. discriminate. }
  destruct Hi as [b0 b1 b2 b3|off|b0 b1 b2 b3|].
  - left. eexists. split; [apply (cycle_load _ _ _ _ _ _ _ _ Hf)|].
    simpl. rewrite length_app. simpl. repeat split. lia.
  - destruct Hstack as [Hs|(s & v & Hs)].
    { right. do 2 eexists. split;
        [apply (cycle_read_underflow _ _ _ _ _ Hf Hs) | left; reflexivity]. }
    set (addr := v + Z.land (Z_of_byte off) 63).
    destruct (Z_le_dec 0 addr) as [H0|H0];
      [destruct (Z_lt_dec addr (Z.of_nat (length (data_memory self)))) as [H1|H1]|].
    + left. destruct (data_lookup self addr (conj H0 H1)) as [b [Hb _]].
      eexists. split; [apply (cycle_read_ok _ _ _ _ _ Hf _ _ Hs b H0 Hb)|].
      simpl. rewrite length_app. simpl. repeat split. lia.
    + right. do 2 eexists. split;
        [apply (cycle_read_invalid _ _ _ _ _ Hf _ _ Hs); fold addr; lia|].
      right. exists addr. left. reflexivity.
    + right. do 2 eexists. split;
        [apply (cycle_read_invalid _ _ _ _ _ Hf _ _ Hs); fold addr; lia|].
      right. exists addr. left. reflexivity.
  - destruct Hstack as [Hs|(s & v & Hs)].
    { right. do 2 eexists. split;
        [apply (cycle_write_underflow _ _ _ _ _ _ _ _ Hf Hs) | left; reflexivity]. }
    set (addr := dword b0 b1 b2 b3).
    destruct (Z_lt_dec addr (Z.of_nat (length (data_memory self)))) as [H1|H1].
    + left. eexists. split; [apply (cycle_write_ok _ _ _ _ _ _ _ _ Hf _ _ Hs H1)|].
      simpl. rewrite length_app. simpl. repeat split. lia.
    + right. do 2 eexists. split;
        [apply (cycle_write_invalid _ _ _ _ _ _ _ _ Hf _ _ Hs H1)|].
      right. exists addr. right. left. reflexivity.
  - destruct Hstack as [Hs|(s & addr & Hs)].
    { right. do 2 eexists. split;
        [apply (cycle_sgn_underflow _ _ _ _ Hf Hs) | left; reflexivity]. }
    destruct (Z_le_dec 0 addr) as [H0|H0];
      [destruct (Z_lt_dec addr (Z.of_nat (length (data_memory self)))) as [H1|H1]|].
    + left. destruct (data_lookup self addr (conj H0 H1)) as [b [Hb _]].
      eexists. split; [apply (cycle_sgn_ok _ _ _ _ Hf _ _ Hs b H0 Hb)|].
      simpl. rewrite length_app. simpl. repeat split. lia.
    + right. do 2 eexists. split;
        [apply (cycle_sgn_invalid _ _ _ _ Hf _ _ Hs); lia|].
      right. exists addr. right. right. reflexivity.
    + right. do 2 eexists. split;
        [apply (cycle_sgn_invalid _ _ _ _ Hf _ _ Hs); lia|].
      right. exists addr. right. right. reflexivity.
Qed.

Lemma run_well_formed k :
  forall suffix pre self n fuel,
    instructions suffix = Some k ->
    code_memory self = pre ++ suffix ->
    ip self = Z.of_nat (length pre) ->
    program_size self = Z.of_nat (length (code_memory self)) ->
    (k <= fuel)%nat ->
    (exists self',
       while_loop fuel n self = (Finished (n + Z.of_nat k), self')
       /\ ip self' = program_size self)
    \/ (exists msg start_ip m self',
          while_loop fuel n self = (Raised (RuntimeError msg) start_ip m, self')
          /\ n < m <= n + Z.of_nat k
          /\ (StackUnderflow msg \/ InvalidAddress msg)).
Proof.
  induction k as [|k IH]; intros suffix pre self n fuel Hk Hc Hi Hp Hfuel.
  - apply instructions_none in Hk. subst suffix. rewrite app_nil_r in Hc.
    left. exists self.
    assert (Hg : (ip self <? program_size self) = false).
    { apply Z.ltb_ge. rewrite Hp, Hi, Hc. lia. }
    split; [|rewrite Hp, Hi, Hc; reflexivity].
    replace (n + Z.of_nat 0) with n by lia.
    destruct fuel; simpl; rewrite Hg; reflexivity.
  - destruct (instructions_cons _ _ Hk) as (instr & rest & -> & Hib & Hrest).
    destruct fuel as [|fuel]; [lia|].
    assert (Hf : fetches self pre instr rest) by (repeat split; assumption).
    destruct (instruction_bytes_cons _ Hib) as (b & bs & Hbs).
    simpl. rewrite Hbs in Hf. rewrite (fetches_guard _ _ _ _ _ Hf).
    rewrite <- Hbs in Hf.
    destruct (cycle_instruction self pre instr rest n Hib Hf)
      as [(self' & Hcy & H1 & H2 & H3)|(msg & self' & Hcy & Hmsg)];
      rewrite Hcy.
    + destruct (IH rest (pre ++ instr) self' (n + 1) fuel Hrest)
        as [(self'' & Hw & Hip)|(msg & sip & m & self'' & Hw & Hm & Hmsg)].
      * rewrite H1, Hc, app_assoc. reflexivity.
      * exact H3.
      * rewrite H2, H1. exact Hp.
      * lia.
      * left. exists self''. rewrite Hw. split.
        -- do 2 f_equal. lia.
        -- rewrite Hip. exact H2.
      * right. exists msg, sip, m, self''. rewrite Hw.
        repeat split; try lia. exact Hmsg.
    + right. exists msg, (ip self), (n + 1), self'.
      repeat split; try lia. exact Hmsg.
Qed.

Lemma instructions_length code k :
  instructions code = Some k -> (k <= length code)%nat.
Proof.
  revert code. induction k as [|k IH]; intros code H; [lia|].
  destruct (instructions_cons _ _ H) as (instr & rest & -> & Hib & Hrest).
  apply IH in Hrest. rewrite length_app.
  destruct (instruction_bytes_cons _ Hib) as (b & bs & ->). simpl. lia.
Qed.

(** C8, as the code has it.  A well-formed program always terminates, with
    any amount of fuel from [program_size] on giving the same run.  Either no
    instruction raises, and then the loop finishes with the instruction
    pointer at the program length after exactly one pass per instruction; or
    some instruction raises the stack-underflow or the invalid-address error
    and the run is aborted there, after at most that many passes.  Every pass
    moves the instruction pointer strictly forward. *)
Theorem execute_well_formed :
  (forall code k data_memory_size,
     instructions code = Some k ->
     let self := load_program (init data_memory_size) code in
     (forall extra,
        while_loop (Z.to_nat (program_size self) + extra) 0 self = execute self)
     /\ ((exists self',
            execute self = (Finished (Z.of_nat k), self')
            /\ ip self' = Z.of_nat (length code))
         \/ (exists msg start_ip m self',
               execute self = (Raised (RuntimeError msg) start_ip m, self')
               /\ 1 <= m <= Z.of_nat k
               /\ (StackUnderflow msg \/ InvalidAddress msg))))
  /\ (forall self n r self' m,
        program_size self = Z.of_nat (length (code_memory self)) ->
        0 <= ip self < program_size self ->
        cycle n self = (r, self', m) ->
        ip self < ip self').
Proof.
  split.
  - intros code k dms Hk self.
    assert (Hp : program_size self = Z.of_nat (length (code_memory self)))
      by reflexivity.
    assert (Hi : ip self = 0) by reflexivity.
    split.
    + intros extra. unfold execute. rewrite Hi, Z.sub_0_r.
      apply while_loop_more_fuel.
      apply while_loop_terminates; [exact Hp | lia | lia].
    + pose proof (instructions_length _ _ Hk) as Hlen.
      destruct (run_well_formed k code [] self 0
                  (Z.to_nat (program_size self - ip self)) Hk)
        as [(self' & Hw & Hip)|(msg & sip & m & self' & Hw & Hm & Hmsg)];
        try reflexivity.
      * rewrite Hp, Hi. simpl code_memory. lia.
      * left. exists self'. unfold execute. rewrite Hw. split; [reflexivity|].
        rewrite Hip. reflexivity.
      * right. exists msg, sip, m, self'. unfold execute. rewrite Hw.
        repeat split; try lia. exact Hmsg.
  - intros self n r self' m Hp Hi H.
    apply (cycle_progress _ _ _ _ _ Hp Hi H).
Qed.

Lemma execute_well_formed_witness :
  instructions (program [load 7; sgn; read 3]) = Some 3%nat
  /\ exists msg start_ip m self',
       execute (load_program (init 4) (program [load 7; sgn; read 3]))
       = (Raised (RuntimeError msg) start_ip m, self')
       /\ 1 <= m <= 3
       /\ (StackUnderflow msg \/ InvalidAddress msg).
Proof.
  assert (Hk : instructions (program [load 7; sgn; read 3]) = Some 3%nat)
    by reflexivity.
  split; [exact Hk|].
  destruct (proj2 (proj1 execute_well_formed _ _ 4 Hk)) as [(self' & H & _)|H].
  - vm_compute in H. discriminate H.
  - exact H.
Defined.

(** C8, as stated, fails: the well-formed program [sgn; sgn] is aborted by
    the first instruction, which finds the stack empty. *)
Lemma well_formed_program_aborts :
  ~ (forall code k data_memory_size,
       instructions code = Some k ->
       exists self',
         execute (load_program (init data_memory_size) code)
         = (Finished (Z.of_nat k), self')
         /\ ip self' = Z.of_nat (length code)).
Proof.
  intros H.
  destruct (H [x9a; x9a] 2%nat 1024 eq_refl) as (self' & Hrun & _).
  vm_compute in Hrun. discriminate Hrun.
Qed.

(** ** What the errors carry *)

Lemma index_in_range {A : Type} (l : list A) (i : Z) :
  0 <= i < Z.of_nat (length l) -> index l i <> None.
Proof.
  intros Hi. rewrite index_nonneg by lia.
  destruct (lookup_lt_is_Some_2 l (Z.to_nat i)) as [x Hx]; [lia|]. congruence.
Qed.

Lemma unpack_I_slice (l : list byte) (i : Z) e :
  0 <= i -> i + 4 <= Z.of_nat (length l) ->
  unpack_I (slice l i (i + 4)) <> inl e.
Proof.
  intros H0 H4.
  assert (Hs : slice l i (i + 4) = take 4 (drop (Z.to_nat i) l)).
  { unfold slice.
    destruct (Z.ltb_spec i 0); [lia|]. destruct (Z.ltb_spec (i + 4) 0); [lia|].
    rewrite !Z.min_l by lia.
    replace (Z.to_nat (i + 4 - i)) with 4%nat by lia. reflexivity. }
  assert (Hn : length (take 4 (drop (Z.to_nat i) l)) = 4%nat)
    by (rewrite length_take, length_drop; lia).
  rewrite Hs.
  destruct (take 4 (drop (Z.to_nat i) l)) as [|b0 [|b1 [|b2 [|b3 [|]]]]];
    try discriminate Hn.
  rewrite unpack_I_dword. discriminate.
Qed.

Lemma in_data_index self addr :
  in_data self addr = true -> index (data_memory self) addr <> None.
Proof. intros H. apply in_data_true in H. apply index_in_range. exact H. Qed.

Lemma byte_value_check (v : Z) :
  (Z.land v 255 <? 0) || (255 <? Z.land v 255) = false.
Proof.
  pose proof (land_255_range v).
  destruct (Z.ltb_spec (Z.land v 255) 0); [lia|].
  destruct (Z.ltb_spec 255 (Z.land v 255)); [lia|]. reflexivity.
Qed.

Lemma dispatch_errors opcode start_ip self e self' :
  program_size self = Z.of_nat (length (code_memory self)) ->
  0 <= ip self ->
  dispatch opcode start_ip self = (inl e, self') ->
  exists msg,
    e = RuntimeError msg
    /\ ((IllegalOpcode msg opcode start_ip
         /\ opcode <> 74 /\ opcode <> 135 /\ opcode <> 213 /\ opcode <> 154)
        \/ StackUnderflow msg \/ TruncatedInstruction msg \/ InvalidAddress msg).
Proof.
  intros Hp Hi H. unfold_methods H. split_cases.
  all: try (eexists; split; [reflexivity|]).
  all: try (right; left; reflexivity).
  all: try (right; right; left; left; reflexivity).
  all: try (right; right; left; right; reflexivity).
  all: try (right; right; right; eexists; left; reflexivity).
  all: try (right; right; right; eexists; right; left; reflexivity).
  all: try (right; right; right; eexists; right; right; reflexivity).
  all: try (left; split; [reflexivity|]; repeat split; apply Z.eqb_neq; assumption).
  all: exfalso; simpl in *.
  all: try match goal with
           | H : unpack_I _ = inl _ |- _ =>
               apply unpack_I_slice in H; [exact H | lia | lia]
           | H : index (code_memory _) _ = None |- _ =>
               apply index_in_range in H; [exact H | lia]
           | H : (Z.land ?v 255 <? 0) || (255 <? Z.land ?v 255) = true |- _ =>
               rewrite byte_value_check in H; discriminate H
           end.
  all: match goal with
       | H : negb (in_data _ ?a) = false,
         H' : index (data_memory _) ?a = None |- _ =>
           apply negb_false_iff, in_data_index in H; exact (H H')
       end.
Qed.

(** Whatever a pass of the loop raises is a [RuntimeError] whose message is
    all that it carries.  The unknown-opcode
    message holds the opcode byte and the offset at which the instruction
    starts.  The others hold no offset: the stack-underflow and the two
    truncation messages are fixed texts, and the invalid-address messages
    name the instruction and the offending data address. *)
Theorem cycle_error_content :
  forall self n e self' m,
    program_size self = Z.of_nat (length (code_memory self)) ->
    0 <= ip self < program_size self ->
    cycle n self = (inl e, self', m) ->
    exists msg,
      e = RuntimeError msg
      /\ ((exists op,
             index (code_memory self) (ip self) = Some op
             /\ IllegalOpcode msg (Z_of_byte op) (ip self)
             /\ Z_of_byte op <> 74 /\ Z_of_byte op <> 135
             /\ Z_of_byte op <> 213 /\ Z_of_byte op <> 154)
          \/ msg = "Stack underflow"
          \/ msg = "Instruction pointer beyond program end"
          \/ msg = "Not enough bytes to read DWORD from code"
          \/ (exists addr,
                msg = "READ_MEM: invalid data address " +:+ str addr
                \/ msg = "WRITE_MEM: invalid data address " +:+ str addr
                \/ msg = "SGN: invalid data address " +:+ str addr)).
Proof.
  intros self n e self' m Hp Hi H.
  destruct (fetches_any self Hp Hi) as (pre & b & post & Hf).
  unfold cycle in H. rewrite (read_byte_from_code_at _ _ _ _ _ Hf) in H.
  destruct (dispatch (Z_of_byte b) (ip self) (set_ip self (ip self + 1)))
    as [r self''] eqn:E.
  destruct r as [e'|]; [|discriminate H]. inversion H; subst e' self'' m.
  apply dispatch_errors in E; [|exact Hp|simpl; lia].
  destruct E as (msg & -> & [(Hill & Hop)|[Hsu|[[Ht|Ht]|Hia]]]);
    exists msg; (split; [reflexivity|]).
  - left. exists b. split; [|split; [exact Hill|exact Hop]].
    destruct Hf as (Hc & Hip & _). rewrite Hc, Hip. apply index_middle.
  - right. left. exact Hsu.
  - right. right. left. exact Ht.
  - right. right. right. left. exact Ht.
  - right. right. right. right. exact Hia.
Qed.

Lemma cycle_error_content_witness :
  let self := mkUVM [x4a; x05; x00; x00; x00; x00] 6 [x00; x00] [5] 5 in
  program_size self = Z.of_nat (length (code_memory self))
  /\ 0 <= ip self < program_size self
  /\ cycle 1 self
     = (inl (RuntimeError "Unknown opcode: 0x00 at IP=0x0005"), set_ip self 6, 2)
  /\ exists msg,
       RuntimeError "Unknown opcode: 0x00 at IP=0x0005" = RuntimeError msg
       /\ ((exists op,
              index (code_memory self) (ip self) = Some op
              /\ IllegalOpcode msg (Z_of_byte op) (ip self)
              /\ Z_of_byte op <> 74 /\ Z_of_byte op <> 135
              /\ Z_of_byte op <> 213 /\ Z_of_byte op <> 154)
           \/ msg = "Stack underflow"
           \/ msg = "Instruction pointer beyond program end"
           \/ msg = "Not enough bytes to read DWORD from code"
           \/ (exists addr,
                 msg = "READ_MEM: invalid data address " +:+ str addr
                 \/ msg = "WRITE_MEM: invalid data address " +:+ str addr
                 \/ msg = "SGN: invalid data address " +:+ str addr)).
Proof.
  intros self.
  assert (Hp : program_size self = Z.of_nat (length (code_memory self)))
    by reflexivity.
  assert (Hi : 0 <= ip self < program_size self) by (simpl; lia).
  assert (Hc : cycle 1 self
               = (inl (RuntimeError "Unknown opcode: 0x00 at IP=0x0005"),
                  set_ip self 6, 2)) by reflexivity.
  split; [exact Hp|]. split; [exact Hi|]. split; [exact Hc|].
  exact (cycle_error_content self 1 _ _ _ Hp Hi Hc).
Defined.

(** No reading of the exception gives the offset of the failure, neither the instruction pointer at the raise nor the start
    of the instruction.  [sgn] alone and [load 0; write 0; sgn] raise the same
    exception, the first at offset 0 (pointer 1), the second at offset 10
    (pointer 11). *)
Lemma error_does_not_determine_offset :
  ~ exists ip_of : exn -> Z,
      forall code e start_ip m self',
        execute (load_program (init 1024) code) = (Raised e start_ip m, self') ->
        ip_of e = start_ip \/ ip_of e = ip self'.
Proof.
  intros [ip_of H].
  assert (E1 : exists self',
             execute (load_program (init 1024) (program [sgn]))
             = (Raised (RuntimeError "Stack underflow") 0 1, self')
             /\ ip self' = 1)
    by (eexists; split; vm_compute; reflexivity).
  assert (E2 : exists self',
             execute (load_program (init 1024) (program [load 0; write 0; sgn]))
             = (Raised (RuntimeError "Stack underflow") 10 3, self')
             /\ ip self' = 11)
    by (eexists; split; vm_compute; reflexivity).
  destruct E1 as (s1 & E1 & I1). destruct E2 as (s2 & E2 & I2).
  apply H in E1. apply H in E2. rewrite I1 in E1. rewrite I2 in E2. lia.
Qed.

(** C9.  The errors do not carry the instruction pointer.  [sgn] alone and
    [load 0; write 0; sgn] on a fresh machine raise the very same exception,
    "Stack underflow", although the first fails at offset 0 (pointer 1) and
    the second at offset 10 (pointer 11).  The invalid-address error names
    the data address only, and the truncation errors are fixed texts.  Only
    the unknown-opcode error, the sibling branch of the same dispatch,
    carries the offset at which the instruction starts. *)
Theorem errors_omit_instruction_pointer :
  let run code := execute (load_program (init 1024) code) in
  (fst (run (program [sgn])) = Raised (RuntimeError "Stack underflow") 0 1
   /\ ip (snd (run (program [sgn]))) = 1)
  /\ (fst (run (program [load 0; write 0; sgn]))
      = Raised (RuntimeError "Stack underflow") 10 3
      /\ ip (snd (run (program [load 0; write 0; sgn]))) = 11)
  /\ fst (run (program [load 0; load 1024; sgn]))
     = Raised (RuntimeError "SGN: invalid data address 1024") 10 3
  /\ fst (run (program [load 1000; read 24]))
     = Raised (RuntimeError "READ_MEM: invalid data address 1024") 5 2
  /\ fst (run (program [load 0; load 7; write 1024]))
     = Raised (RuntimeError "WRITE_MEM: invalid data address 1024") 10 3
  /\ fst (run [x9a; x4a; x00])
     = Raised (RuntimeError "Stack underflow") 0 1
  /\ fst (run [x4a; x00; x00; x00; x00; x4a; x00])
     = Raised (RuntimeError "Not enough bytes to read DWORD from code") 5 2
  /\ fst (run [x4a; x00; x00; x00; x00; x87])
     = Raised (RuntimeError "Instruction pointer beyond program end") 5 2
  /\ fst (run [x4a; x00; x00; x00; x00; x00])
     = Raised (RuntimeError "Unknown opcode: 0x00 at IP=0x0005") 5 2.
Proof. vm_compute. repeat split. Qed.

(** * Further properties of the interpreter *)

(** ** What a pass of the loop keeps *)

Ltac bounds_of_tests :=
  repeat match goal with
         | H : (_ >=? _) = false |- _ => rewrite Z.geb_leb in H; apply Z.leb_gt in H
         | H : (_ >=? _) = true |- _ => apply Z.geb_le in H
         | H : (_ >? _) = false |- _ => rewrite Z.gtb_ltb in H; apply Z.ltb_ge in H
         | H : (_ >? _) = true |- _ => apply Z.gtb_lt in H
         | H : (_ <? _) = false |- _ => apply Z.ltb_ge in H
         | H : (_ <? _) = true |- _ => apply Z.ltb_lt in H
         | H : (_ =? _) = true |- _ => apply Z.eqb_eq in H
         | H : (_ =? _) = false |- _ => apply Z.eqb_neq in H
         end.

Lemma unpack_I_range bs z : unpack_I bs = inr z -> 0 <= z < 2 ^ 32.
Proof.
  destruct bs as [|b0 [|b1 [|b2 [|b3 [|]]]]]; try discriminate.
  rewrite unpack_I_dword. intros [= <-]. apply dword_range.
Qed.

Lemma Forall_removelast {A : Type} (P : A -> Prop) (l : list A) :
  Forall P l -> Forall P (removelast l).
Proof.
  induction 1 as [|x l Hx Hl IH]; [constructor|].
  simpl. destruct l; [constructor|]. constructor; assumption.
Qed.

Lemma length_removelast_last {A : Type} (l : list A) x :
  last l = Some x -> S (length (removelast l)) = length l.
Proof.
  intros H. destruct (nonempty_snoc l) as (s & v & ->).
  { intros ->. discriminate H. }
  rewrite removelast_last, length_app. simpl. lia.
Qed.

Lemma dispatch_ip_bound opcode start_ip self r self' :
  ip self <= program_size self ->
  dispatch opcode start_ip self = (r, self') ->
  ip self' <= program_size self.
Proof.
  intros Hi H. unfold_methods H. split_cases; simpl; bounds_of_tests; lia.
Qed.

Lemma dispatch_data_length opcode start_ip self r self' :
  dispatch opcode start_ip self = (r, self') ->
  length (data_memory self') = length (data_memory self).
Proof.
  intros H. unfold_methods H. split_cases; simpl;
    rewrite ?length_insert; reflexivity.
Qed.

Lemma dispatch_stack_values opcode start_ip self r self' :
  Forall machine_value (stack self) ->
  dispatch opcode start_ip self = (r, self') ->
  Forall machine_value (stack self').
Proof.
  intros Hs H. unfold_methods H. split_cases; simpl;
    repeat match goal with
           | |- Forall _ (_ ++ [_]) => apply Forall_app; split; [|constructor; [|constructor]]
           | |- Forall _ (removelast _) => apply Forall_removelast
           | |- Forall _ (stack _) => exact Hs
           end.
  all: unfold machine_value.
  all: try match goal with
           | H : unpack_I _ = inr ?z |- _ <= ?z < _ =>
               apply unpack_I_range in H; lia
           | |- _ <= Z_of_byte ?b < _ =>
               pose proof (Z_of_byte_range b); lia
           end.
  all: try lia.
  destruct (unpack_b (Z_of_byte b) >? 0); [lia|].
  destruct (unpack_b (Z_of_byte b) <? 0); lia.
Qed.


Lemma cycle_inv n self r self' m :
  cycle n self = (r, self', m) ->
  (exists e, r = inl e /\ self' = self /\ m = n
             /\ read_byte_from_code self = (inl e, self))
  \/ (exists op r',
        index (code_memory self) (ip self) = Some op
        /\ ip self < program_size self
        /\ dispatch (Z_of_byte op) (ip self) (set_ip self (ip self + 1)) = (r', self')
        /\ m = n + 1
        /\ r = match r' with inl e => inl e | inr _ => inr (n + 1) end).
Proof.
  unfold cycle, read_byte_from_code.
  destruct (ip self >=? program_size self) eqn:Hg.
  { intros [= <- <- <-]. left. eexists. repeat split. }
  destruct (index (code_memory self) (ip self)) as [op|] eqn:Hop.
  2:{ intros [= <- <- <-]. left. eexists. repeat split. }
  bounds_of_tests.
  destruct (dispatch (Z_of_byte op) (ip self) (set_ip self (ip self + 1)))
    as [r' self''] eqn:E.
  intros H. right. exists op, r'.
  destruct r'; inversion H; subst; repeat split; assumption.
Qed.

Lemma cycle_keeps n self r self' m :
  cycle n self = (r, self', m) ->
  code_memory self' = code_memory self
  /\ program_size self' = program_size self
  /\ length (data_memory self') = length (data_memory self)
  /\ ip self <= ip self'
  /\ (ip self <= program_size self -> ip self' <= program_size self)
  /\ (Forall machine_value (stack self) -> Forall machine_value (stack self')).
Proof.
  intros H.
  destruct (cycle_inv _ _ _ _ _ H)
    as [(e & _ & -> & _)|(op & r' & Hop & Hlt & Hd & _)].
  { repeat split; auto; lia. }
  pose proof (dispatch_frame _ _ _ _ _ Hd) as (H1 & H2 & H3).
  pose proof (dispatch_data_length _ _ _ _ _ Hd) as H4.
  simpl in *. repeat split; auto; try lia.
  - intros _. apply (dispatch_ip_bound _ _ _ _ _) in Hd; simpl in *; lia.
  - intros Hs.
    exact (dispatch_stack_values _ _ (set_ip self (ip self + 1)) _ _ Hs Hd).
Qed.

Lemma cycle_advances n self x self' m :
  cycle n self = (inr x, self', m) ->
  ip self < ip self' /\ ip self < program_size self.
Proof.
  intros H.
  destruct (cycle_inv _ _ _ _ _ H)
    as [(e & He & _)|(op & r' & Hop & Hlt & Hd & _)]; [discriminate He|].
  apply dispatch_frame in Hd. simpl in Hd. lia.
Qed.

Lemma while_loop_keeps (P : UVMInterpreter -> Prop) :
  (forall n self r self' m, P self -> cycle n self = (r, self', m) -> P self') ->
  forall fuel n self, P self -> P (snd (while_loop fuel n self)).
Proof.
  intros Hstep. induction fuel as [|fuel IH]; intros n self HP; simpl.
  - destruct (ip self <? program_size self); exact HP.
  - destruct (ip self <? program_size self); [|exact HP].
    destruct (cycle n self) as [[r self'] m] eqn:E.
    pose proof (Hstep _ _ _ _ _ HP E) as HP'.
    destruct r; [exact HP'|]. apply IH. exact HP'.
Qed.

Lemma while_loop_never_out_of_fuel fuel :
  forall n self,
    (Z.to_nat (program_size self - ip self) <= fuel)%nat ->
    fst (while_loop fuel n self) <> OutOfFuel.
Proof.
  induction fuel as [|fuel IH]; intros n self Hf; simpl.
  - destruct (Z.ltb_spec (ip self) (program_size self)); [lia|discriminate].
  - destruct (Z.ltb_spec (ip self) (program_size self)); [|discriminate].
    destruct (cycle n self) as [[r self'] m] eqn:E.
    destruct r as [e|x]; [discriminate|].
    pose proof (cycle_advances _ _ _ _ _ E) as [Hadv _].
    pose proof (cycle_keeps _ _ _ _ _ E) as (_ & Hp & _).
    apply IH. lia.
Qed.

Lemma while_loop_finished fuel :
  forall n self m self',
    while_loop fuel n self = (Finished m, self') ->
    program_size self' <= ip self' /\ n <= m.
Proof.
  induction fuel as [|fuel IH]; intros n self m self'; simpl.
  - destruct (Z.ltb_spec (ip self) (program_size self)); [discriminate|].
    intros [= <- <-]. lia.
  - destruct (Z.ltb_spec (ip self) (program_size self)).
    2:{ intros [= <- <-]. lia. }
    destruct (cycle n self) as [[r self1] m1] eqn:E.
    destruct r as [e|x]; [discriminate|].
    intros Hw. apply IH in Hw.
    destruct (cycle_inv _ _ _ _ _ E)
      as [(e & He & _)|(op & r' & _ & _ & _ & -> & _)]; [discriminate He|].
    lia.
Qed.

Lemma while_loop_past_end fuel n self :
  program_size self <= ip self -> while_loop fuel n self = (Finished n, self).
Proof.
  intros H. apply Z.ltb_ge in H. destruct fuel; simpl; rewrite H; reflexivity.
Qed.

(** ** Runs of arbitrary programs *)

(** X1.  [execute] terminates on every machine and every byte sequence,
    well-formed or not: the [program_size - ip] passes it is given are never
    used up, and more fuel gives the same run. *)
Theorem execute_terminates :
  forall self,
    fst (execute self) <> OutOfFuel
    /\ forall extra,
         while_loop (Z.to_nat (program_size self - ip self) + extra) 0 self
         = execute self.
Proof.
  intros self.
  assert (H : fst (execute self) <> OutOfFuel)
    by (apply while_loop_never_out_of_fuel; lia).
  split; [exact H|]. intros extra. apply while_loop_more_fuel. exact H.
Qed.

Lemma execute_keeps :
  forall self,
    let self' := snd (execute self) in
    code_memory self' = code_memory self
    /\ program_size self' = program_size self
    /\ length (data_memory self') = length (data_memory self)
    /\ ip self <= ip self'
    /\ (ip self <= program_size self -> ip self' <= program_size self).
Proof.
  intros self.
  apply (while_loop_keeps
           (fun s => code_memory s = code_memory self
                     /\ program_size s = program_size self
                     /\ length (data_memory s) = length (data_memory self)
                     /\ ip self <= ip s
                     /\ (ip self <= program_size self -> ip s <= program_size self))).
  - intros n s r s' m (H1 & H2 & H3 & H4 & H5) E.
    pose proof (cycle_keeps _ _ _ _ _ E) as (K1 & K2 & K3 & K4 & K5 & _).
    repeat split; try congruence; lia.
  - repeat split; auto; lia.
Qed.

(** X2.  Whatever the program and however the run ends, [execute] leaves the
    code memory, [program_size] and the size of the data memory as they were,
    never moves the instruction pointer backwards, and never moves it past
    [program_size] if it was not already there. *)
Theorem execute_keeps_memories :
  forall self,
    let self' := snd (execute self) in
    code_memory self' = code_memory self
    /\ program_size self' = program_size self
    /\ length (data_memory self') = length (data_memory self)
    /\ ip self <= ip self'
    /\ (ip self <= program_size self -> ip self' <= program_size self).
Proof. exact execute_keeps. Qed.

Lemma execute_finishes_halt self n self' :
  ip self <= program_size self ->
  execute self = (Finished n, self') ->
  ip self' = program_size self.
Proof.
  intros Hi H.
  pose proof (execute_keeps self) as (_ & K2 & _ & _ & K5).
  rewrite H in K2, K5. simpl in K2, K5.
  apply while_loop_finished in H. specialize (K5 Hi). lia.
Qed.

(** X3.  When the loop finishes without an error and the instruction pointer
    started inside the program, it stops exactly at [program_size]: an
    instruction is never read across the end of the code. *)
Theorem execute_finishes_at_end :
  forall self n self',
    ip self <= program_size self ->
    execute self = (Finished n, self') ->
    ip self' = program_size self /\ 0 <= n.
Proof.
  intros self n self' Hi H. split.
  - exact (execute_finishes_halt self n self' Hi H).
  - apply while_loop_finished in H. lia.
Qed.

Lemma execute_finishes_at_end_witness :
  let self := load_program (init 8) (program [load 1; load 2]) in
  ip self <= program_size self
  /\ execute self = (Finished 2, mkUVM (program [load 1; load 2]) 10
                                       (replicate 8 x00) [1; 2] 10)
  /\ ip (mkUVM (program [load 1; load 2]) 10 (replicate 8 x00) [1; 2] 10)
     = program_size self
  /\ 0 <= 2.
Proof.
  intros self.
  assert (Hi : ip self <= program_size self) by (vm_compute; discriminate).
  assert (He : execute self
               = (Finished 2, mkUVM (program [load 1; load 2]) 10
                                    (replicate 8 x00) [1; 2] 10)) by reflexivity.
  split; [exact Hi|]. split; [exact He|].
  exact (execute_finishes_at_end self 2 _ Hi He).
Defined.

(** X4.  Every value that the interpreter puts on the stack is between -1
    and 2^32 - 1: if the stack holds only such values before a run, it holds
    only such values after it, however the run ends. *)
Theorem execute_stack_values :
  forall self,
    Forall machine_value (stack self) ->
    Forall machine_value (stack (snd (execute self))).
Proof.
  intros self Hs.
  apply (while_loop_keeps (fun s => Forall machine_value (stack s))); [|exact Hs].
  intros n s r s' m HP E. apply (cycle_keeps _ _ _ _ _ E). exact HP.
Qed.

Lemma execute_stack_values_witness :
  let self := load_program (init 4) (program [load 4294967295; load 3; sgn; sgn]) in
  Forall machine_value (stack self)
  /\ Forall machine_value (stack (snd (execute self))).
Proof.
  intros self.
  assert (Hs : Forall machine_value (stack self)) by constructor.
  split; [exact Hs|]. exact (execute_stack_values self Hs).
Defined.

(** X6.  [load_program] does not reset the machine.  After a run that
    finished, loading a program that is not longer than the one just run and
    calling [execute] again runs no instruction at all: the loop finishes at
    once with the stack and the data memory of the first run. *)
Theorem reload_does_not_restart :
  forall self n self' binary_data,
    ip self <= program_size self ->
    execute self = (Finished n, self') ->
    Z.of_nat (length binary_data) <= program_size self ->
    execute (load_program self' binary_data)
    = (Finished 0, load_program self' binary_data)
    /\ stack (load_program self' binary_data) = stack self'
    /\ data_memory (load_program self' binary_data) = data_memory self'.
Proof.
  intros self n self' code Hi H Hlen.
  pose proof (execute_finishes_halt self n self' Hi H) as Hip.
  split; [|split; reflexivity].
  apply while_loop_past_end. simpl. lia.
Qed.

Lemma reload_does_not_restart_witness :
  let self := load_program (init 8) (program [load 1; load 2]) in
  let self' := mkUVM (program [load 1; load 2]) 10 (replicate 8 x00) [1; 2] 10 in
  ip self <= program_size self
  /\ execute self = (Finished 2, self')
  /\ Z.of_nat (length (program [load 7; sgn])) <= program_size self
  /\ execute (load_program self' (program [load 7; sgn]))
     = (Finished 0, load_program self' (program [load 7; sgn]))
  /\ stack (load_program self' (program [load 7; sgn])) = [1; 2].
Proof.
  intros self self'.
  assert (Hi : ip self <= program_size self) by (vm_compute; discriminate).
  assert (He : execute self = (Finished 2, self')) by reflexivity.
  assert (Hl : Z.of_nat (length (program [load 7; sgn])) <= program_size self)
    by (vm_compute; discriminate).
  split; [exact Hi|]. split; [exact He|]. split; [exact Hl|].
  destruct (reload_does_not_restart self 2 self' (program [load 7; sgn]) Hi He Hl)
    as (H1 & H2 & _).
  split; [exact H1|exact H2].
Defined.

(** ** Decoding *)

(** X7.  [LOAD_CONST] with its four operand bytes present never fails: it
    pushes the operand, read as a little-endian unsigned 32-bit number, moves
    the instruction pointer by five and touches neither the rest of the
    stack nor the data memory. *)
Theorem load_const_semantics :
  forall self pre b0 b1 b2 b3 post n,
    fetches self pre [x4a; b0; b1; b2; b3] post ->
    let constant := Z_of_byte b0 + 2 ^ 8 * Z_of_byte b1
                    + 2 ^ 16 * Z_of_byte b2 + 2 ^ 24 * Z_of_byte b3 in
    0 <= constant < 2 ^ 32
    /\ cycle n self
       = (inr (n + 1),
          mkUVM (code_memory self) (program_size self) (data_memory self)
                (stack self ++ [constant]) (ip self + 5),
          n + 1).
Proof.
  intros self pre b0 b1 b2 b3 post n Hf constant. split.
  - apply (dword_range b0 b1 b2 b3).
  - exact (cycle_load self pre b0 b1 b2 b3 post n Hf).
Qed.

Lemma load_const_semantics_witness :
  let self := mkUVM [x9a; x4a; xd4; x01; x00; x00] 6 [] [-1] 1 in
  fetches self [x9a] [x4a; xd4; x01; x00; x00] []
  /\ cycle 3 self = (inr 4, mkUVM [x9a; x4a; xd4; x01; x00; x00] 6 [] [-1; 468] 6, 4).
Proof.
  intros self.
  assert (Hf : fetches self [x9a] [x4a; xd4; x01; x00; x00] []) by (repeat split).
  split; [exact Hf|].
  exact (proj2 (load_const_semantics self _ _ _ _ _ _ 3 Hf)).
Defined.

Lemma read_dword_from_code_short self :
  program_size self = Z.of_nat (length (code_memory self)) ->
  program_size self < ip self + 4 ->
  read_dword_from_code self
  = (inl (RuntimeError "Not enough bytes to read DWORD from code"), self).
Proof.
  intros Hp Hlt. unfold read_dword_from_code.
  destruct (Z.gtb_spec (ip self + 4) (program_size self)); [reflexivity|lia].
Qed.

Lemma truncated_instruction_cases self pre op tl n :
  fetches self pre [op] tl ->
  ((op = x4a \/ op = xd5) -> (length tl < 4)%nat ->
   cycle n self
   = (inl (RuntimeError "Not enough bytes to read DWORD from code"),
      set_ip self (ip self + 1), n + 1))
  /\ (op = x87 -> tl = [] ->
      cycle n self
      = (inl (RuntimeError "Instruction pointer beyond program end"),
         set_ip self (ip self + 1), n + 1)).
Proof.
  intros Hf. pose proof Hf as (Hc & Hi & Hp). split.
  - intros Hop Hlen. fetch_opcode Hf.
    assert (Hshort : read_dword_from_code (set_ip self (ip self + 1))
                     = (inl (RuntimeError "Not enough bytes to read DWORD from code"),
                        set_ip self (ip self + 1))).
    { apply read_dword_from_code_short; simpl; [exact Hp|].
      rewrite Hp, Hi, Hc, !length_app. simpl. lia. }
    destruct Hop as [-> | ->].
    + change (Z_of_byte x4a =? 74) with true. cbv iota. run_bind.
      rewrite Hshort. reflexivity.
    + change (Z_of_byte xd5 =? 74) with false.
      change (Z_of_byte xd5 =? 135) with false.
      change (Z_of_byte xd5 =? 213) with true. cbv iota. run_bind.
      rewrite Hshort. reflexivity.
  - intros -> ->. fetch_opcode Hf.
    change (Z_of_byte x87 =? 74) with false.
    change (Z_of_byte x87 =? 135) with true. cbv iota. run_bind.
    unfold read_byte_from_code.
    destruct (Z.geb_spec (ip (set_ip self (ip self + 1)))
                         (program_size (set_ip self (ip self + 1)))) as [_|Hlt].
    + reflexivity.
    + simpl in Hlt. rewrite Hp, Hi, Hc, !length_app in Hlt. simpl in Hlt. lia.
Qed.

(** X8.  A truncated instruction is refused before anything else happens.
    When fewer than four bytes follow the opcode of [LOAD_CONST] or
    [WRITE_MEM], or no byte follows the opcode of [READ_MEM], the pass raises
    the corresponding end-of-code error; only the instruction pointer has
    moved (past the opcode), the stack is not popped even for [WRITE_MEM] and
    [READ_MEM], and an empty stack is not reported. *)
Theorem truncated_instruction :
  forall self pre op tl n,
    fetches self pre [op] tl ->
    ((op = x4a \/ op = xd5) -> (length tl < 4)%nat ->
     cycle n self
     = (inl (RuntimeError "Not enough bytes to read DWORD from code"),
        set_ip self (ip self + 1), n + 1))
    /\ (op = x87 -> tl = [] ->
        cycle n self
        = (inl (RuntimeError "Instruction pointer beyond program end"),
           set_ip self (ip self + 1), n + 1)).
Proof.
  intros self pre op tl n Hf.
  exact (truncated_instruction_cases self pre op tl n Hf).
Qed.

Lemma truncated_instruction_witness :
  let self := mkUVM [x4a; x01; x00; x00; x00; xd5; x02; x00] 8 [x00] [] 5 in
  fetches self [x4a; x01; x00; x00; x00] [xd5] [x02; x00]
  /\ (length [x02; x00] < 4)%nat
  /\ cycle 1 self
     = (inl (RuntimeError "Not enough bytes to read DWORD from code"),
        set_ip self (ip self + 1), 1 + 1).
Proof.
  intros self.
  assert (Hf : fetches self [x4a; x01; x00; x00; x00] [xd5] [x02; x00])
    by (repeat split).
  assert (Hl : (length [x02; x00] < 4)%nat) by (simpl; lia).
  split; [exact Hf|]. split; [exact Hl|].
  exact (proj1 (truncated_instruction self _ _ _ 1 Hf) (or_intror eq_refl) Hl).
Defined.

(** X9.  A byte that is none of the four opcodes is refused with the
    unknown-opcode error whatever follows it; the stack and the data memory
    are untouched and the instruction pointer has moved past that byte. *)
Theorem unknown_opcode :
  forall self pre op post n,
    fetches self pre [op] post ->
    Z_of_byte op <> 74 -> Z_of_byte op <> 135 ->
    Z_of_byte op <> 213 -> Z_of_byte op <> 154 ->
    exists self',
      cycle n self
      = (inl (RuntimeError ("Unknown opcode: 0x" +:+ format_X 2 (Z_of_byte op)
                            +:+ " at IP=0x" +:+ format_X 4 (ip self))),
         self', n + 1)
      /\ stack self' = stack self
      /\ data_memory self' = data_memory self
      /\ ip self' = ip self + 1.
Proof.
  intros self pre op post n Hf H1 H2 H3 H4. eexists. split.
  - exact (cycle_unknown self pre op post n Hf H1 H2 H3 H4).
  - repeat split.
Qed.

Lemma unknown_opcode_witness :
  let self := mkUVM [x9a; xff; x4a] 3 [x07] [0] 1 in
  fetches self [x9a] [xff] [x4a]
  /\ exists self',
       cycle 1 self
       = (inl (RuntimeError "Unknown opcode: 0xFF at IP=0x0001"), self', 1 + 1)
       /\ stack self' = [0] /\ data_memory self' = [x07] /\ ip self' = 1 + 1.
Proof.
  intros self.
  assert (Hf : fetches self [x9a] [xff] [x4a]) by (repeat split).
  split; [exact Hf|].
  apply (unknown_opcode self [x9a] xff [x4a] 1 Hf); vm_compute; discriminate.
Defined.

(** X10.  When four bytes are left in the code, [read_dword_from_code] is
    four [read_byte_from_code] in a row, the bytes combined least significant
    first. *)
Theorem read_dword_is_four_bytes :
  forall self,
    program_size self = Z.of_nat (length (code_memory self)) ->
    0 <= ip self ->
    ip self + 4 <= program_size self ->
    read_dword_from_code self
    = interpreter.bind read_byte_from_code (fun b0 =>
      interpreter.bind read_byte_from_code (fun b1 =>
      interpreter.bind read_byte_from_code (fun b2 =>
      interpreter.bind read_byte_from_code (fun b3 =>
      ret (b0 + Z.shiftl b1 8 + Z.shiftl b2 16 + Z.shiftl b3 24))))) self.
Proof.
  intros self Hp H0 H4.
  set (i := Z.to_nat (ip self)).
  assert (Hl : code_memory self
               = take i (code_memory self)
                 ++ take 4 (drop i (code_memory self))
                 ++ drop 4 (drop i (code_memory self)))
    by (rewrite !take_drop; reflexivity).
  assert (Hn : length (take 4 (drop i (code_memory self))) = 4%nat)
    by (rewrite length_take, length_drop; lia).
  destruct (take 4 (drop i (code_memory self)))
    as [|b0 [|b1 [|b2 [|b3 [|]]]]] eqn:E; try discriminate Hn.
  assert (Hf : fetches self (take i (code_memory self)) [b0; b1; b2; b3]
                       (drop 4 (drop i (code_memory self)))).
  { repeat split; [exact Hl | rewrite length_take; lia | exact Hp]. }
  rewrite (read_dword_from_code_at _ _ _ _ _ _ _ Hf).
  pose proof (fetches_tail _ _ _ _ _ Hf) as Hf1.
  pose proof (fetches_tail _ _ _ _ _ Hf1) as Hf2.
  pose proof (fetches_tail _ _ _ _ _ Hf2) as Hf3.
  unfold interpreter.bind at 1. rewrite (read_byte_from_code_at _ _ _ _ _ Hf).
  unfold interpreter.bind at 1. rewrite (read_byte_from_code_at _ _ _ _ _ Hf1).
  unfold interpreter.bind at 1. rewrite (read_byte_from_code_at _ _ _ _ _ Hf2).
  unfold interpreter.bind at 1. rewrite (read_byte_from_code_at _ _ _ _ _ Hf3).
  unfold ret, set_ip, dword. simpl. rewrite !Z.shiftl_mul_pow2 by lia.
  f_equal; [f_equal; lia | f_equal; lia].
Qed.

Lemma read_dword_is_four_bytes_witness :
  let self := mkUVM [x9a; x78; x56; x34; x12] 5 [] [] 1 in
  program_size self = Z.of_nat (length (code_memory self))
  /\ 0 <= ip self
  /\ ip self + 4 <= program_size self
  /\ read_dword_from_code self = (inr 305419896, set_ip self 5)
  /\ read_dword_from_code self
     = interpreter.bind read_byte_from_code (fun b0 =>
       interpreter.bind read_byte_from_code (fun b1 =>
       interpreter.bind read_byte_from_code (fun b2 =>
       interpreter.bind read_byte_from_code (fun b3 =>
       ret (b0 + Z.shiftl b1 8 + Z.shiftl b2 16 + Z.shiftl b3 24))))) self.
Proof.
  intros self.
  assert (Hp : program_size self = Z.of_nat (length (code_memory self)))
    by reflexivity.
  assert (H0 : 0 <= ip self) by (simpl; lia).
  assert (H4 : ip self + 4 <= program_size self) by (simpl; lia).
  split; [exact Hp|]. split; [exact H0|]. split; [exact H4|].
  split; [reflexivity|].
  exact (read_dword_is_four_bytes self Hp H0 H4).
Defined.

(** X11.  The stack is last-in, first-out: [pop] right after [push v]
    returns [v] and leaves the object exactly as it was before the push. *)
Theorem push_then_pop :
  forall v self,
    interpreter.bind (push v) (fun _ => pop) self = (inr v, self).
Proof.
  intros v [code size data stk i].
  unfold interpreter.bind, push, modify, pop, set_stack. simpl.
  rewrite last_snoc, removelast_last. reflexivity.
Qed.

(** ** Runs that finish *)

Lemma instructions_app instr rest :
  instruction_bytes instr ->
  instructions (instr ++ rest) = option_map S (instructions rest).
Proof. intros []; reflexivity. Qed.

Lemma decode_cases (op : byte) (tl : list byte) :
  (exists instr rest, op :: tl = instr ++ rest /\ instruction_bytes instr)
  \/ ((op = x4a \/ op = xd5) /\ (length tl < 4)%nat)
  \/ (op = x87 /\ tl = [])
  \/ (Z_of_byte op <> 74 /\ Z_of_byte op <> 135
      /\ Z_of_byte op <> 213 /\ Z_of_byte op <> 154).
Proof.
  destruct (Z.eq_dec (Z_of_byte op) 74) as [E|N1].
  { apply (Z_of_byte_inj op x4a) in E. subst op.
    destruct tl as [|b0 [|b1 [|b2 [|b3 rest]]]];
      try (right; left; split; [left; reflexivity | simpl; lia]).
    left. exists [x4a; b0; b1; b2; b3], rest. split; [reflexivity|constructor]. }
  destruct (Z.eq_dec (Z_of_byte op) 135) as [E|N2].
  { apply (Z_of_byte_inj op x87) in E. subst op.
    destruct tl as [|off rest]; [right; right; left; split; reflexivity|].
    left. exists [x87; off], rest. split; [reflexivity|constructor]. }
  destruct (Z.eq_dec (Z_of_byte op) 213) as [E|N3].
  { apply (Z_of_byte_inj op xd5) in E. subst op.
    destruct tl as [|b0 [|b1 [|b2 [|b3 rest]]]];
      try (right; left; split; [right; reflexivity | simpl; lia]).
    left. exists [xd5; b0; b1; b2; b3], rest. split; [reflexivity|constructor]. }
  destruct (Z.eq_dec (Z_of_byte op) 154) as [E|N4].
  { apply (Z_of_byte_inj op x9a) in E. subst op.
    left. exists [x9a], tl. split; [reflexivity|constructor]. }
  right. right. right. repeat split; assumption.
Qed.

Lemma cycle_success_shape self pre suffix n x self' m :
  code_memory self = pre ++ suffix ->
  ip self = Z.of_nat (length pre) ->
  program_size self = Z.of_nat (length (code_memory self)) ->
  cycle n self = (inr x, self', m) ->
  exists instr rest,
    suffix = instr ++ rest
    /\ instruction_bytes instr
    /\ ip self' = Z.of_nat (length (pre ++ instr))
    /\ m = n + 1.
Proof.
  intros Hc Hi Hp H.
  pose proof (cycle_advances _ _ _ _ _ H) as [_ Hlt].
  destruct suffix as [|op tl].
  { rewrite Hp, Hi, Hc, app_nil_r in Hlt. lia. }
  destruct (decode_cases op tl)
    as [(instr & rest & E & Hib)|[(Hop & Hlen)|[(-> & ->)|(N1 & N2 & N3 & N4)]]].
  - assert (Hf : fetches self pre instr rest)
      by (repeat split; [rewrite Hc, E; reflexivity | exact Hi | exact Hp]).
    destruct (cycle_instruction self pre instr rest n Hib Hf)
      as [(s1 & Hcy & _ & _ & Hip)|(msg & s1 & Hcy & _)];
      rewrite Hcy in H; [|discriminate H].
    inversion H; subst. exists instr, rest. repeat split; assumption.
  - assert (Hf : fetches self pre [op] tl) by (repeat split; assumption).
    rewrite (proj1 (truncated_instruction_cases self pre op tl n Hf) Hop Hlen) in H.
    discriminate H.
  - assert (Hf : fetches self pre [x87] []) by (repeat split; assumption).
    rewrite (proj2 (truncated_instruction_cases self pre x87 [] n Hf)
               eq_refl eq_refl) in H.
    discriminate H.
  - assert (Hf : fetches self pre [op] tl) by (repeat split; assumption).
    rewrite (cycle_unknown self pre op tl n Hf N1 N2 N3 N4) in H. discriminate H.
Qed.

Lemma finished_well_formed fuel :
  forall n self m self' pre suffix,
    code_memory self = pre ++ suffix ->
    ip self = Z.of_nat (length pre) ->
    program_size self = Z.of_nat (length (code_memory self)) ->
    while_loop fuel n self = (Finished m, self') ->
    instructions suffix = Some (Z.to_nat (m - n)) /\ n <= m.
Proof.
  induction fuel as [|fuel IH]; intros n self m self' pre suffix Hc Hi Hp;
    simpl.
  - destruct (Z.ltb_spec (ip self) (program_size self)); [discriminate|].
    intros [= <- <-]. rewrite Hp, Hi, Hc, length_app in *.
    destruct suffix; [|simpl in *; lia].
    rewrite Z.sub_diag. split; [reflexivity|lia].
  - destruct (Z.ltb_spec (ip self) (program_size self)).
    2:{ intros [= <- <-]. rewrite Hp, Hi, Hc, length_app in *.
        destruct suffix; [|simpl in *; lia].
        rewrite Z.sub_diag. split; [reflexivity|lia]. }
    destruct (cycle n self) as [[r s1] m1] eqn:E.
    destruct r as [e|x]; [discriminate|]. intros Hw.
    destruct (cycle_success_shape _ _ _ _ _ _ _ Hc Hi Hp E)
      as (instr & rest & -> & Hib & Hip & ->).
    pose proof (cycle_keeps _ _ _ _ _ E) as (K1 & K2 & _).
    destruct (IH (n + 1) s1 m self' (pre ++ instr) rest) as [Hrest Hle].
    + rewrite K1, Hc, app_assoc. reflexivity.
    + exact Hip.
    + rewrite K2, K1. exact Hp.
    + exact Hw.
    + split; [|lia]. rewrite (instructions_app _ _ Hib), Hrest. simpl.
      f_equal. lia.
Qed.

(** X12.  The converse of the termination property: if a run from offset 0
    finishes without an error after [n] passes, then the code is a
    well-formed program of exactly [n] instructions (four opcodes only, no
    operand cut short), and the instruction pointer ends at its length. *)
Theorem finished_run_is_well_formed :
  forall self binary_data n self',
    ip self = 0 ->
    execute (load_program self binary_data) = (Finished n, self') ->
    instructions binary_data = Some (Z.to_nat n)
    /\ 0 <= n
    /\ ip self' = Z.of_nat (length binary_data).
Proof.
  intros self code n self' Hi H.
  pose proof H as Hw. unfold execute in Hw.
  destruct (finished_well_formed _ 0 (load_program self code) n self' [] code
              eq_refl Hi eq_refl Hw) as [Hwf Hn].
  rewrite Z.sub_0_r in Hwf. split; [exact Hwf|]. split; [exact Hn|].
  apply (execute_finishes_halt (load_program self code) n self');
    [simpl; lia | exact H].
Qed.

Lemma finished_run_is_well_formed_witness :
  let code := program [load 2; read 1; sgn] in
  ip (init 4) = 0
  /\ execute (load_program (init 4) code)
     = (Finished 3, mkUVM code 8 (replicate 4 x00) [0] 8)
  /\ instructions code = Some (Z.to_nat 3).
Proof.
  intros code.
  assert (Hi : ip (init 4) = 0) by reflexivity.
  assert (He : execute (load_program (init 4) code)
               = (Finished 3, mkUVM code 8 (replicate 4 x00) [0] 8))
    by reflexivity.
  split; [exact Hi|]. split; [exact He|].
  exact (proj1 (finished_run_is_well_formed (init 4) code 3 _ Hi He)).
Defined.

(** ** What a pass writes *)



(** * Further properties of the assembler *)

(** ** Encoding one instruction *)

Lemma to_bytes_inr v k bs :
  to_bytes v k = inr bs -> 0 <= v < 2 ^ (8 * Z.of_nat k) /\ bs = le_bytes k v.
Proof.
  unfold to_bytes. destruct (Z.ltb_spec v 0); [discriminate|].
  destruct (Z.leb_spec (2 ^ (8 * Z.of_nat k)) v); [discriminate|].
  intros [= <-]. split; [lia|reflexivity].
Qed.

Lemma to_binary_inr i bs :
  to_binary i = inr bs ->
  legal i = true
  /\ instruction_bytes bs
  /\ match opcode i, operand i with
     | LOAD_CONST, Some v => bs = x4a :: le_bytes 4 v /\ 0 <= v < 2 ^ 32
     | READ_MEM, Some off => bs = x87 :: le_bytes 1 off /\ 0 <= off <= 63
     | WRITE_MEM, Some a => bs = xd5 :: le_bytes 4 a /\ 0 <= a < 2 ^ 32
     | SGN, _ => bs = [x9a]
     | _, None => False
     end.
Proof.
  destruct i as [op o line]. unfold to_binary, legal. cbn [opcode operand].
  destruct op, o as [v|]; try discriminate.
  - change (to_bytes (value LOAD_CONST) 1) with (@inr exn _ [x4a]).
    cbv beta iota delta [assembler.bind].
    destruct (to_bytes v 4) as [e|b] eqn:E; [discriminate|].
    apply to_bytes_inr in E. destruct E as [Hr ->]. intros [= <-].
    change (2 ^ (8 * Z.of_nat 4)) with (2 ^ 32) in Hr.
    split; [|split; [constructor | split; [reflexivity | lia]]].
    apply andb_true_iff. split; [apply Z.leb_le|apply Z.ltb_lt]; lia.
  - destruct (Z.gtb_spec v 63) as [|Hle]; [discriminate|].
    change (to_bytes (value READ_MEM) 1) with (@inr exn _ [x87]).
    cbv beta iota delta [assembler.bind].
    destruct (to_bytes v 1) as [e|b] eqn:E; [discriminate|].
    apply to_bytes_inr in E. destruct E as [Hr ->]. intros [= <-].
    split; [|split; [constructor | split; [reflexivity | lia]]].
    apply andb_true_iff. split; apply Z.leb_le; lia.
  - change (to_bytes (value WRITE_MEM) 1) with (@inr exn _ [xd5]).
    cbv beta iota delta [assembler.bind].
    destruct (to_bytes v 4) as [e|b] eqn:E; [discriminate|].
    apply to_bytes_inr in E. destruct E as [Hr ->]. intros [= <-].
    change (2 ^ (8 * Z.of_nat 4)) with (2 ^ 32) in Hr.
    split; [|split; [constructor | split; [reflexivity | lia]]].
    apply andb_true_iff. split; [apply Z.leb_le|apply Z.ltb_lt]; lia.
  - intros [= <-]. split; [reflexivity|]. split; [constructor|reflexivity].
  - intros [= <-]. split; [reflexivity|]. split; [constructor|reflexivity].
Qed.

Lemma legal_to_binary i :
  legal i = true -> exists bs, to_binary i = inr bs.
Proof.
  destruct i as [op o line]. unfold legal. cbn [opcode operand].
  destruct op, o as [v|]; try discriminate; intros Hl;
    try (apply andb_true_iff in Hl; destruct Hl as [H0 H1];
         apply Z.leb_le in H0).
  - apply Z.ltb_lt in H1. eexists. apply to_binary_load. lia.
  - apply Z.leb_le in H1. eexists. apply to_binary_read. lia.
  - apply Z.ltb_lt in H1. eexists. apply to_binary_write. lia.
  - eexists. apply to_binary_sgn.
  - eexists. apply to_binary_sgn.
Qed.

Lemma to_binary_length i bs :
  to_binary i = inr bs -> Z.of_nat (length bs) = get_size i.
Proof.
  intros H. apply to_binary_inr in H. destruct H as (_ & _ & H).
  destruct i as [op o line]. unfold get_size. cbn [opcode operand] in *.
  destruct op, o as [v|]; try contradiction.
  - destruct H as [-> _]. reflexivity.
  - destruct H as [-> _]. reflexivity.
  - destruct H as [-> _]. reflexivity.
  - subst bs. reflexivity.
  - subst bs. reflexivity.
Qed.

(** X13.  [to_binary] returns bytes exactly for the legal instructions: a
    [load] or [write] with an operand in 0 .. 2^32 - 1, a [read] with an
    operand in 0 .. 63, and any [sgn].  Otherwise it raises: the
    missing-operand [ValueError] with the line number when [load], [read] or
    [write] has no operand, [OverflowError] when the operand is negative, and
    [OverflowError] when the operand of [load] or [write] is 2^32 or more. *)
Theorem to_binary_succeeds_or_raises :
  forall i,
    (legal i = true <-> exists bs, to_binary i = inr bs)
    /\ (operand i = None ->
        match opcode i with
        | LOAD_CONST =>
            to_binary i = inl (ValueError ("Line " +:+ str (line_number i)
                                           +:+ ": LOAD requires operand"))
        | READ_MEM =>
            to_binary i = inl (ValueError ("Line " +:+ str (line_number i)
                                           +:+ ": READ requires operand"))
        | WRITE_MEM =>
            to_binary i = inl (ValueError ("Line " +:+ str (line_number i)
                                           +:+ ": WRITE requires operand"))
        | SGN => to_binary i = inr [x9a]
        end)
    /\ (forall v, operand i = Some v -> v < 0 -> opcode i <> SGN ->
                  to_binary i
                  = inl (OverflowError "can't convert negative int to unsigned"))
    /\ (forall v, operand i = Some v -> 2 ^ 32 <= v ->
                  opcode i = LOAD_CONST \/ opcode i = WRITE_MEM ->
                  to_binary i = inl (OverflowError "int too big to convert")).
Proof.
  intros i. split; [|split; [|split]].
  - split; [apply legal_to_binary|].
    intros [bs H]. apply (to_binary_inr i bs H).
  - destruct i as [op o line]. cbn [opcode operand line_number].
    intros ->. destruct op; reflexivity.
  - destruct i as [op o line]. cbn [opcode operand].
    intros v -> Hv Hop. unfold to_binary. cbn [opcode operand].
    assert (Hneg : forall k, to_bytes v k
                   = inl (OverflowError "can't convert negative int to unsigned")).
    { intros k. unfold to_bytes. destruct (Z.ltb_spec v 0); [reflexivity|lia]. }
    destruct op; try contradiction.
    + change (to_bytes (value LOAD_CONST) 1) with (@inr exn _ [x4a]).
      cbv beta iota delta [assembler.bind]. rewrite Hneg. reflexivity.
    + destruct (Z.gtb_spec v 63); [lia|].
      change (to_bytes (value READ_MEM) 1) with (@inr exn _ [x87]).
      cbv beta iota delta [assembler.bind]. rewrite Hneg. reflexivity.
    + change (to_bytes (value WRITE_MEM) 1) with (@inr exn _ [xd5]).
      cbv beta iota delta [assembler.bind]. rewrite Hneg. reflexivity.
  - destruct i as [op o line]. cbn [opcode operand].
    intros v -> Hv Hop. unfold to_binary. cbn [opcode operand].
    assert (Hbig : to_bytes v 4 = inl (OverflowError "int too big to convert")).
    { unfold to_bytes. destruct (Z.ltb_spec v 0); [lia|].
      change (2 ^ (8 * Z.of_nat 4)) with (2 ^ 32).
      destruct (Z.leb_spec (2 ^ 32) v); [reflexivity|lia]. }
    destruct Hop as [-> | ->].
    + change (to_bytes (value LOAD_CONST) 1) with (@inr exn _ [x4a]).
      cbv beta iota delta [assembler.bind]. rewrite Hbig. reflexivity.
    + change (to_bytes (value WRITE_MEM) 1) with (@inr exn _ [xd5]).
      cbv beta iota delta [assembler.bind]. rewrite Hbig. reflexivity.
Qed.

Lemma to_binary_succeeds_or_raises_witness :
  operand (write (-1)) = Some (-1)
  /\ -1 < 0
  /\ opcode (write (-1)) <> SGN
  /\ to_binary (write (-1))
     = inl (OverflowError "can't convert negative int to unsigned").
Proof.
  assert (Ho : operand (write (-1)) = Some (-1)) by reflexivity.
  assert (Hn : -1 < 0) by lia.
  assert (Hs : opcode (write (-1)) <> SGN) by discriminate.
  split; [exact Ho|]. split; [exact Hn|]. split; [exact Hs|].
  exact (proj1 (proj2 (proj2 (to_binary_succeeds_or_raises (write (-1)))))
           (-1) Ho Hn Hs).
Defined.

Lemma byte_of_Z_of_byte (b : byte) : byte_of_Z (Z_of_byte b) = b.
Proof.
  apply Z_of_byte_inj. apply Z_of_byte_of_Z. apply Z_of_byte_range.
Qed.

Lemma le_bytes_of_dword b0 b1 b2 b3 :
  le_bytes 4 (dword b0 b1 b2 b3) = [b0; b1; b2; b3].
Proof.
  pose proof (Z_of_byte_range b0). pose proof (Z_of_byte_range b1).
  pose proof (Z_of_byte_range b2). pose proof (Z_of_byte_range b3).
  assert (Hb : forall z b, z mod 2 ^ 8 = Z_of_byte b ->
                           byte_of_Z (Z.land z 255) = b).
  { intros z b Hz. apply Z_of_byte_inj. rewrite Z_of_byte_of_Z_low.
    change 255 with (Z.ones 8). rewrite Z.land_ones by lia.
    rewrite Z.mod_mod by lia. exact Hz. }
  simpl. rewrite !Z.shiftr_div_pow2 by lia. unfold dword.
  change (2 ^ 8) with 256 in *. change (2 ^ 16) with 65536.
  change (2 ^ 24) with 16777216.
  repeat f_equal; apply Hb; change (2 ^ 8) with 256;
    Z.div_mod_to_equations; lia.
Qed.

(** X14.  The two sides agree on the 32-bit operand format: decoding with
    [struct.unpack('<I', ...)] what [to_bytes(4, 'little')] encoded gives the
    number back, and encoding what was decoded from any four bytes gives the
    bytes back. *)
Theorem dword_codec :
  (forall v, 0 <= v < 2 ^ 32 ->
             assembler.bind (to_bytes v 4) unpack_I = inr v)
  /\ (forall b0 b1 b2 b3,
        assembler.bind (unpack_I [b0; b1; b2; b3]) (fun v => to_bytes v 4)
        = inr [b0; b1; b2; b3]).
Proof.
  split.
  - intros v Hv. rewrite to_bytes_dword by exact Hv.
    destruct (le_bytes_dword v Hv) as (b0 & b1 & b2 & b3 & -> & Hd).
    cbv beta iota delta [assembler.bind]. rewrite unpack_I_dword, Hd. reflexivity.
  - intros b0 b1 b2 b3. rewrite unpack_I_dword.
    cbv beta iota delta [assembler.bind].
    rewrite to_bytes_dword by apply dword_range.
    rewrite le_bytes_of_dword. reflexivity.
Qed.

Lemma dword_codec_witness :
  0 <= 305419896 < 2 ^ 32
  /\ assembler.bind (to_bytes 305419896 4) unpack_I = inr 305419896.
Proof.
  split; [lia|]. apply (proj1 dword_codec 305419896). lia.
Defined.

(** ** Assembling a program *)

Lemma assemble_from_acc acc instrs :
  assemble_from acc instrs
  = assembler.bind (assemble_from [] instrs) (fun bs => inr (acc ++ bs)).
Proof.
  revert acc. induction instrs as [|i rest IH]; intros acc; simpl.
  - rewrite app_nil_r. reflexivity.
  - destruct (to_binary i) as [e|bs]; [reflexivity|].
    rewrite (IH (acc ++ bs)), (IH bs).
    destruct (assemble_from [] rest) as [e|code]; simpl; [reflexivity|].
    rewrite app_assoc. reflexivity.
Qed.

Lemma assemble_cons i rest :
  assemble_to_binary (i :: rest)
  = assembler.bind (to_binary i) (fun bs =>
    assembler.bind (assemble_to_binary rest) (fun code => inr (bs ++ code))).
Proof.
  unfold assemble_to_binary. simpl.
  destruct (to_binary i) as [e|bs]; [reflexivity|]. simpl.
  apply assemble_from_acc.
Qed.

Lemma assemble_app instrs1 instrs2 :
  assemble_to_binary (instrs1 ++ instrs2)
  = assembler.bind (assemble_to_binary instrs1) (fun code1 =>
    assembler.bind (assemble_to_binary instrs2) (fun code2 =>
    inr (code1 ++ code2))).
Proof.
  induction instrs1 as [|i rest IH].
  - simpl. change (assemble_to_binary []) with (@inr exn _ (@nil byte)).
    simpl. destruct (assemble_to_binary instrs2); reflexivity.
  - rewrite <- app_comm_cons, !assemble_cons, IH.
    destruct (to_binary i) as [e|bs]; [reflexivity|]. simpl.
    destruct (assemble_to_binary rest) as [e|c1]; [reflexivity|]. simpl.
    destruct (assemble_to_binary instrs2) as [e|c2]; [reflexivity|]. simpl.
    rewrite app_assoc. reflexivity.
Qed.

Lemma assemble_singleton i : assemble_to_binary [i] = to_binary i.
Proof.
  unfold assemble_to_binary. simpl. destruct (to_binary i); reflexivity.
Qed.

Lemma assemble_first_error pre i post code e :
  assemble_to_binary pre = inr code ->
  to_binary i = inl e ->
  assemble_to_binary (pre ++ i :: post) = inl e.
Proof.
  intros Hpre Hi. rewrite assemble_app, Hpre, assemble_cons, Hi. reflexivity.
Qed.

Lemma assemble_concat instrs :
  forall code,
    assemble_to_binary instrs = inr code ->
    exists encodings,
      Forall2 (fun i bs => to_binary i = inr bs) instrs encodings
      /\ code = concat encodings.
Proof.
  induction instrs as [|i rest IH]; intros code.
  - intros [= <-]. exists []. split; [constructor|reflexivity].
  - rewrite assemble_cons.
    destruct (to_binary i) as [e|bs] eqn:Ei; [discriminate|]. simpl.
    destruct (assemble_to_binary rest) as [e|c] eqn:Er; [discriminate|]. simpl.
    intros [= <-]. destruct (IH c eq_refl) as (encs & Hall & ->).
    exists (bs :: encs). split; [constructor; assumption|reflexivity].
Qed.

(** X15.  Assembling is instruction by instruction.  The binary of a single
    instruction is its [to_binary]; the binary of two instruction lists one
    after the other is the binary of the first followed by the binary of the
    second; so a binary that is returned is the encodings of the
    instructions, in order, one after the other.  When an instruction cannot
    be encoded and all before it can, the error raised is that
    instruction's, whatever follows it. *)
Theorem assemble_to_binary_app :
  (forall i, assemble_to_binary [i] = to_binary i)
  /\ (forall instrs1 instrs2,
        assemble_to_binary (instrs1 ++ instrs2)
        = assembler.bind (assemble_to_binary instrs1) (fun code1 =>
          assembler.bind (assemble_to_binary instrs2) (fun code2 =>
          inr (code1 ++ code2))))
  /\ (forall instrs code,
        assemble_to_binary instrs = inr code ->
        exists encodings,
          Forall2 (fun i bs => to_binary i = inr bs) instrs encodings
          /\ code = concat encodings)
  /\ (forall pre i post code e,
        assemble_to_binary pre = inr code ->
        to_binary i = inl e ->
        assemble_to_binary (pre ++ i :: post) = inl e).
Proof.
  split; [exact assemble_singleton|].
  split; [exact assemble_app|].
  split; [exact assemble_concat|].
  exact assemble_first_error.
Qed.

Lemma assemble_to_binary_app_witness :
  assemble_to_binary [load 468; sgn] = inr [x4a; xd4; x01; x00; x00; x9a]
  /\ to_binary (mkInstruction READ_MEM (Some 64) 3)
     = inl (ValueError "Line 3: Offset too large: 64. Max 63.")
  /\ assemble_to_binary
       ([load 468; sgn] ++ mkInstruction READ_MEM (Some 64) 3
                           :: [mkInstruction LOAD_CONST None 4])
     = inl (ValueError "Line 3: Offset too large: 64. Max 63.").
Proof.
  assert (Hpre : assemble_to_binary [load 468; sgn]
                 = inr [x4a; xd4; x01; x00; x00; x9a]) by reflexivity.
  assert (Hi : to_binary (mkInstruction READ_MEM (Some 64) 3)
               = inl (ValueError "Line 3: Offset too large: 64. Max 63."))
    by reflexivity.
  split; [exact Hpre|]. split; [exact Hi|].
  exact (proj2 (proj2 (proj2 assemble_to_binary_app)) _ _
           [mkInstruction LOAD_CONST None 4] _ _ Hpre Hi).
Defined.

Lemma assemble_well_formed instrs :
  forall code,
    assemble_to_binary instrs = inr code ->
    instructions code = Some (length instrs)
    /\ Z.of_nat (length code)
       = fold_left (fun total i => total + get_size i) instrs 0
    /\ Forall (fun i => legal i = true) instrs.
Proof.
  assert (Hfold : forall l a,
             fold_left (fun total i => total + get_size i) l a
             = a + fold_left (fun total i => total + get_size i) l 0).
  { induction l as [|i l IH]; intros a; simpl; [lia|].
    rewrite (IH (a + get_size i)), (IH (0 + get_size i)). lia. }
  induction instrs as [|i rest IH]; intros code.
  - intros [= <-]. repeat split. constructor.
  - rewrite assemble_cons.
    destruct (to_binary i) as [e|bs] eqn:Ei; [discriminate|]. simpl.
    destruct (assemble_to_binary rest) as [e|c] eqn:Er; [discriminate|]. simpl.
    intros [= <-]. destruct (IH c eq_refl) as (H1 & H2 & H3).
    pose proof (to_binary_inr i bs Ei) as (Hl & Hib & _).
    pose proof (to_binary_length i bs Ei) as Hlen.
    split; [|split].
    + rewrite (instructions_app _ _ Hib), H1. reflexivity.
    + rewrite length_app, Hfold. lia.
    + constructor; assumption.
Qed.

(** X16.  Whatever [assemble_to_binary] returns is a well-formed binary
    program with one binary instruction per source instruction, its length is
    the sum of the instructions' [get_size], and every source instruction
    was legal. *)
Theorem assembled_program_is_well_formed :
  forall instrs code,
    assemble_to_binary instrs = inr code ->
    instructions code = Some (length instrs)
    /\ Z.of_nat (length code)
       = fold_left (fun total i => total + get_size i) instrs 0
    /\ Forall (fun i => legal i = true) instrs.
Proof. exact assemble_well_formed. Qed.

Lemma assembled_program_is_well_formed_witness :
  assemble_to_binary [load 468; read 15; write 224; sgn]
  = inr [x4a; xd4; x01; x00; x00; x87; x0f; xd5; xe0; x00; x00; x00; x9a]
  /\ instructions [x4a; xd4; x01; x00; x00; x87; x0f; xd5; xe0; x00; x00; x00; x9a]
     = Some 4%nat.
Proof.
  assert (H : assemble_to_binary [load 468; read 15; write 224; sgn]
              = inr [x4a; xd4; x01; x00; x00; x87; x0f; xd5; xe0; x00; x00; x00; x9a])
    by reflexivity.
  split; [exact H|].
  exact (proj1 (assembled_program_is_well_formed _ _ H)).
Defined.

(** X17.  An assembled program never meets a decoding error.  Run from
    offset 0 on any machine it either finishes, after one pass per source
    instruction and with the instruction pointer at the end, or is stopped by
    the stack-underflow or the invalid-address error; the unknown-opcode and
    the truncation errors cannot occur. *)
Theorem assembled_program_runs :
  forall instrs code self,
    assemble_to_binary instrs = inr code ->
    ip self = 0 ->
    (exists self',
       execute (load_program self code)
       = (Finished (Z.of_nat (length instrs)), self')
       /\ ip self' = Z.of_nat (length code))
    \/ (exists msg start_ip m self',
          execute (load_program self code)
          = (Raised (RuntimeError msg) start_ip m, self')
          /\ 1 <= m <= Z.of_nat (length instrs)
          /\ (StackUnderflow msg \/ InvalidAddress msg)).
Proof.
  intros instrs code self Ha Hi.
  pose proof (assemble_well_formed _ _ Ha) as (Hwf & _ & _).
  pose proof (instructions_length _ _ Hwf) as Hlen.
  destruct (run_well_formed (length instrs) code [] (load_program self code) 0
              (Z.to_nat (program_size (load_program self code)
                         - ip (load_program self code))) Hwf eq_refl Hi eq_refl)
    as [(self' & Hw & Hip)|(msg & sip & m & self' & Hw & Hm & Hmsg)].
  - simpl. lia.
  - left. exists self'. unfold execute. rewrite Hw. split; [reflexivity|].
    rewrite Hip. reflexivity.
  - right. exists msg, sip, m, self'. unfold execute. rewrite Hw.
    repeat split; try lia. exact Hmsg.
Qed.

Lemma assembled_program_runs_witness :
  assemble_to_binary [load 3; load 9; write 3; read 0]
  = inr (program [load 3; load 9; write 3; read 0])
  /\ ip (init 8) = 0
  /\ exists self',
       execute (load_program (init 8) (program [load 3; load 9; write 3; read 0]))
       = (Finished 4, self')
       /\ ip self' = 17.
Proof.
  assert (Ha : assemble_to_binary [load 3; load 9; write 3; read 0]
               = inr (program [load 3; load 9; write 3; read 0])) by reflexivity.
  assert (Hi : ip (init 8) = 0) by reflexivity.
  split; [exact Ha|]. split; [exact Hi|].
  destruct (assembled_program_runs _ _ (init 8) Ha Hi)
    as [H|(msg & sip & m & self' & H & _)].
  - exact H.
  - vm_compute in H. discriminate H.
Defined.

(** X18.  What the interpreter decodes is what the assembler was given.
    Executing the encoding of [load v] pushes [v]; executing the encoding of
    [write a] stores at address [a]; executing the encoding of [read off]
    reads at [base + off], the 6-bit mask losing nothing. *)
Theorem assembled_operands_decode :
  (forall v line bs self pre post n,
     to_binary (mkInstruction LOAD_CONST (Some v) line) = inr bs ->
     fetches self pre bs post ->
     cycle n self
     = (inr (n + 1),
        mkUVM (code_memory self) (program_size self) (data_memory self)
              (stack self ++ [v]) (ip self + 5),
        n + 1))
  /\ (forall a line bs self pre post n s x,
        to_binary (mkInstruction WRITE_MEM (Some a) line) = inr bs ->
        fetches self pre bs post ->
        stack self = s ++ [x] ->
        a < Z.of_nat (length (data_memory self)) ->
        cycle n self
        = (inr (n + 1),
           mkUVM (code_memory self) (program_size self)
                 (<[Z.to_nat a := byte_of_Z (Z.land x 255)]> (data_memory self))
                 s (ip self + 5),
           n + 1))
  /\ (forall off line bs self pre post n s base b,
        to_binary (mkInstruction READ_MEM (Some off) line) = inr bs ->
        fetches self pre bs post ->
        stack self = s ++ [base] ->
        0 <= base + off ->
        data_memory self !! Z.to_nat (base + off) = Some b ->
        cycle n self
        = (inr (n + 1),
           mkUVM (code_memory self) (program_size self) (data_memory self)
                 (s ++ [Z_of_byte b]) (ip self + 2),
           n + 1)).
Proof.
  split; [|split].
  - intros v line bs self pre post n Hb Hf.
    apply to_binary_inr in Hb. cbn [opcode operand] in Hb.
    destruct Hb as (_ & _ & -> & Hv).
    destruct (le_bytes_dword v Hv) as (b0 & b1 & b2 & b3 & E & Hd).
    rewrite E in Hf. rewrite (cycle_load _ _ _ _ _ _ _ n Hf), Hd. reflexivity.
  - intros a line bs self pre post n s x Hb Hf Hs Ha.
    apply to_binary_inr in Hb. cbn [opcode operand] in Hb.
    destruct Hb as (_ & _ & -> & Hv).
    destruct (le_bytes_dword a Hv) as (b0 & b1 & b2 & b3 & E & Hd).
    rewrite E in Hf.
    rewrite (cycle_write_ok _ _ _ _ _ _ _ n Hf s x Hs); rewrite Hd;
      [reflexivity | exact Ha].
  - intros off line bs self pre post n s base b Hb Hf Hs H0 Hd.
    apply to_binary_inr in Hb. cbn [opcode operand] in Hb.
    destruct Hb as (_ & _ & -> & Hv).
    destruct (le_bytes_byte off) as (o & E & Ho);
      [change (2 ^ 8) with 256; lia|].
    rewrite E in Hf.
    assert (Hmask : Z.land (Z_of_byte o) 63 = off).
    { rewrite Ho. change 63 with (Z.ones 6). rewrite Z.land_ones by lia.
      apply Z.mod_small. change (2 ^ 6) with 64. lia. }
    apply (cycle_read_ok _ _ _ _ n Hf s base Hs b); rewrite Hmask; assumption.
Qed.

Lemma assembled_operands_decode_witness :
  let self := mkUVM [x4a; xff; xff; xff; xff] 5 [] [] 0 in
  to_binary (mkInstruction LOAD_CONST (Some 4294967295) 1)
  = inr [x4a; xff; xff; xff; xff]
  /\ fetches self [] [x4a; xff; xff; xff; xff] []
  /\ cycle 0 self
     = (inr 1, mkUVM [x4a; xff; xff; xff; xff] 5 [] [4294967295] 5, 1).
Proof.
  intros self.
  assert (Hb : to_binary (mkInstruction LOAD_CONST (Some 4294967295) 1)
               = inr [x4a; xff; xff; xff; xff]) by reflexivity.
  assert (Hf : fetches self [] [x4a; xff; xff; xff; xff] []) by (repeat split).
  split; [exact Hb|]. split; [exact Hf|].
  exact (proj1 assembled_operands_decode _ _ _ self [] [] 0 Hb Hf).
Defined.

(** ** The [Assembler] object *)

Lemma assemble_loop_ok instrs :
  forall self code,
    assemble_from (Assembler.binary_data self) instrs = inr code ->
    Assembler.assemble_loop instrs self
    = (inr tt, Assembler.mkAssembler (Assembler.instructions self) code).
Proof.
  induction instrs as [|i rest IH]; intros [l data] code; simpl.
  - intros [= <-]. reflexivity.
  - destruct (to_binary i) as [e|bs]; [discriminate|].
    intros H. apply (IH (Assembler.mkAssembler l (data ++ bs)) code H).
Qed.

Lemma assemble_loop_raises pre :
  forall self i post code e,
    assemble_from (Assembler.binary_data self) pre = inr code ->
    to_binary i = inl e ->
    Assembler.assemble_loop (pre ++ i :: post) self
    = (inl e, Assembler.mkAssembler (Assembler.instructions self) code).
Proof.
  induction pre as [|j pre IH]; intros [l data] i post code e; simpl.
  - intros [= <-] ->. destruct e; reflexivity.
  - destruct (to_binary j) as [e'|bs]; [discriminate|].
    intros H Hi.
    apply (IH (Assembler.mkAssembler l (data ++ bs)) i post code e H Hi).
Qed.

(** X19.  [Assembler.assemble_to_binary] discards the previous
    [binary_data].  When every instruction can be encoded it returns the
    whole binary and stores it in the object.  When one cannot, it raises
    that instruction's error and leaves in [binary_data] the encodings of the
    instructions before it: a partial program, not the empty one. *)
Theorem assemble_to_binary_object :
  forall self,
    (forall code,
       assemble_to_binary (Assembler.instructions self) = inr code ->
       Assembler.assemble_to_binary self
       = (inr code, Assembler.mkAssembler (Assembler.instructions self) code))
    /\ (forall pre i post code e,
          Assembler.instructions self = pre ++ i :: post ->
          assemble_to_binary pre = inr code ->
          to_binary i = inl e ->
          Assembler.assemble_to_binary self
          = (inl e, Assembler.mkAssembler (Assembler.instructions self) code)).
Proof.
  intros [l data]. split.
  - intros code H.
    unfold Assembler.assemble_to_binary, Assembler.set_binary_data.
    cbn [Assembler.instructions Assembler.binary_data].
    rewrite (assemble_loop_ok l (Assembler.mkAssembler l []) code H).
    reflexivity.
  - intros pre i post code e His Hpre Hi. simpl in His. subst l.
    unfold Assembler.assemble_to_binary, Assembler.set_binary_data.
    cbn [Assembler.instructions Assembler.binary_data].
    rewrite (assemble_loop_raises pre
               (Assembler.mkAssembler (pre ++ i :: post) []) i post code e Hpre Hi).
    reflexivity.
Qed.

Lemma assemble_to_binary_object_witness :
  let self := Assembler.mkAssembler [load 1; sgn; read 64; load 2] [xff] in
  Assembler.instructions self = [load 1; sgn] ++ read 64 :: [load 2]
  /\ assemble_to_binary [load 1; sgn] = inr [x4a; x01; x00; x00; x00; x9a]
  /\ to_binary (read 64)
     = inl (ValueError "Line 0: Offset too large: 64. Max 63.")
  /\ Assembler.assemble_to_binary self
     = (inl (ValueError "Line 0: Offset too large: 64. Max 63."),
        Assembler.mkAssembler [load 1; sgn; read 64; load 2]
                              [x4a; x01; x00; x00; x00; x9a]).
Proof.
  intros self.
  assert (H1 : Assembler.instructions self = [load 1; sgn] ++ read 64 :: [load 2])
    by reflexivity.
  assert (H2 : assemble_to_binary [load 1; sgn] = inr [x4a; x01; x00; x00; x00; x9a])
    by reflexivity.
  assert (H3 : to_binary (read 64)
               = inl (ValueError "Line 0: Offset too large: 64. Max 63."))
    by reflexivity.
  split; [exact H1|]. split; [exact H2|]. split; [exact H3|].
  exact (proj2 (assemble_to_binary_object self) _ _ _ _ _ H1 H2 H3).
Defined.

(** X20.  The sizes listed by [get_internal_representation] add up to the
    length of the binary: when the program assembles, the total size that
    [main] prints in test mode is the total program size, and there is one
    entry per instruction. *)
Theorem internal_representation_total_size :
  forall self code,
    assemble_to_binary (Assembler.instructions self) = inr code ->
    Assembler.total_size (Assembler.get_internal_representation self)
    = Z.of_nat (length code)
    /\ length (Assembler.get_internal_representation self)
       = length (Assembler.instructions self).
Proof.
  intros self code H. split.
  - pose proof (assemble_well_formed _ _ H) as (_ & Hlen & _). rewrite Hlen.
    clear H Hlen.
    unfold Assembler.total_size, Assembler.get_internal_representation.
    generalize 0. induction (Assembler.instructions self) as [|i l0 IH];
      intros a; simpl; [reflexivity|]. apply IH.
  - unfold Assembler.get_internal_representation. apply length_map.
Qed.

Lemma internal_representation_total_size_witness :
  let self := Assembler.mkAssembler [load 468; read 15; write 224; sgn] [] in
  assemble_to_binary (Assembler.instructions self)
  = inr [x4a; xd4; x01; x00; x00; x87; x0f; xd5; xe0; x00; x00; x00; x9a]
  /\ Assembler.total_size (Assembler.get_internal_representation self) = 13.
Proof.
  intros self.
  assert (H : assemble_to_binary (Assembler.instructions self)
              = inr [x4a; xd4; x01; x00; x00; x87; x0f; xd5; xe0; x00; x00; x00; x9a])
    by reflexivity.
  split; [exact H|].
  exact (proj1 (internal_representation_total_size self _ H)).
Defined.

Lemma string_length_append (s1 s2 : string) :
  String.length (s1 +:+ s2) = (String.length s1 + String.length s2)%nat.
Proof. induction s1 as [|c s1 IH]; simpl; [reflexivity|]. rewrite IH. reflexivity. Qed.

Lemma hex_byte_length (b : byte) : String.length (format_X 2 (Z_of_byte b)) = 2%nat.
Proof. destruct b; reflexivity. Qed.

Lemma join_hex_length (b : byte) (bs : list byte) :
  (String.length (Assembler.join ", " (Assembler.hex_bytes (b :: bs))) + 2
   = 6 * S (length bs))%nat.
Proof.
  revert b. induction bs as [|b' bs IH]; intros b.
  - change (Assembler.join ", " (Assembler.hex_bytes [b]))
      with ("0x" +:+ format_X 2 (Z_of_byte b)).
    rewrite string_length_append, hex_byte_length. reflexivity.
  - change (Assembler.join ", " (Assembler.hex_bytes (b :: b' :: bs)))
      with (("0x" +:+ format_X 2 (Z_of_byte b)) +:+ ", "
            +:+ Assembler.join ", " (Assembler.hex_bytes (b' :: bs))).
    rewrite !string_length_append, hex_byte_length. specialize (IH b').
    change (String.length "0x") with 2%nat.
    change (String.length ", ") with 2%nat. simpl length. lia.
Qed.

(** X21.  In the ['hex'] style [display_binary_output] shows the cached
    [binary_data] whenever it is not empty: it encodes nothing again, cannot
    raise, and leaves the object alone, whatever the instruction list holds
    by then.  The text is fixed-width: every byte takes four characters
    ("0x" and two digits) and consecutive bytes are two characters apart, so
    [n] bytes give [6n - 2] characters. *)
Theorem display_hex_of_cached_binary :
  forall self b bs,
    Assembler.binary_data self = b :: bs ->
    exists text,
      Assembler.display_binary_output "hex" self = (inr text, self)
      /\ text = Assembler.join ", " (Assembler.hex_bytes (b :: bs))
      /\ (String.length text + 2 = 6 * length (b :: bs))%nat.
Proof.
  intros self b bs H. eexists. split; [|split].
  - unfold Assembler.display_binary_output. rewrite H. simpl String.eqb.
    cbv iota. rewrite H. reflexivity.
  - reflexivity.
  - apply join_hex_length.
Qed.

Lemma display_hex_of_cached_binary_witness :
  let self := Assembler.mkAssembler [read 64] [x4a; xd4; x01; x00; x00] in
  Assembler.binary_data self = x4a :: [xd4; x01; x00; x00]
  /\ Assembler.display_binary_output "hex" self
     = (inr "0x4A, 0xD4, 0x01, 0x00, 0x00"%string, self).
Proof.
  intros self.
  assert (H : Assembler.binary_data self = x4a :: [xd4; x01; x00; x00])
    by reflexivity.
  split; [exact H|].
  destruct (display_hex_of_cached_binary self _ _ H) as (text & Hd & -> & _).
  exact Hd.
Defined.

(** * The memory dump *)

Lemma str_inj (a b : Z) : str a = str b -> a = b.
Proof.
  unfold str. intros H.
  assert (Hn : forall z, Z.to_int z <> Decimal.Pos Decimal.Nil
                         /\ Z.to_int z <> Decimal.Neg Decimal.Nil).
  { intros [|p|p]; simpl; split; try discriminate;
      intros [= E]; exact (DecimalPos.Unsigned.to_uint_nonnil p E). }
  apply DecimalZ.to_int_inj.
  assert (E : Some (Z.to_int a) = Some (Z.to_int b)).
  { rewrite <- (NilZero.isi (Z.to_int a)) by apply Hn.
    rewrite <- (NilZero.isi (Z.to_int b)) by apply Hn.
    rewrite H. reflexivity. }
  congruence.
Qed.

Lemma dump_loop_spec self addrs :
  Forall (fun a => 0 <= a < Z.of_nat (length (data_memory self))) addrs ->
  NoDup addrs ->
  forall m : gmap string Z,
    (forall a, a ∈ addrs -> m !! str a = None) ->
    exists m',
      dump_loop addrs m self = (inr m', self)
      /\ size m' = (size m + length addrs)%nat
      /\ forall a, m' !! str a
                   = if decide (a ∈ addrs)
                     then Z_of_byte <$> data_memory self !! Z.to_nat a
                     else m !! str a.
Proof.
  induction addrs as [|a0 rest IH]; intros Hr Hnd m Hfresh.
  - exists m. split; [reflexivity|]. split; [simpl; lia|].
    intros a. destruct (decide (a ∈ [])) as [Hin|_]; [|reflexivity].
    apply elem_of_nil in Hin. contradiction.
  - apply Forall_cons in Hr. destruct Hr as [Ha0 Hr].
    apply NoDup_cons in Hnd. destruct Hnd as [Hnotin Hnd].
    destruct (data_lookup self a0 Ha0) as (b & Hb & Hidx).
    simpl. rewrite Hidx.
    destruct (IH Hr Hnd (<[str a0 := Z_of_byte b]> m)) as (m' & Hrun & Hsize & Hlook).
    { intros a Hin. rewrite lookup_insert_ne.
      - apply Hfresh. right. exact Hin.
      - intros E. apply str_inj in E. subst a. contradiction. }
    exists m'. split; [exact Hrun|]. split.
    + rewrite Hsize, map_size_insert_None; [simpl; lia|].
      apply Hfresh. left.
    + intros a. rewrite Hlook.
      destruct (decide (a ∈ rest)) as [Hin|Hnin].
      * destruct (decide (a ∈ a0 :: rest)) as [_|Hc]; [reflexivity|].
        exfalso. apply Hc. right. exact Hin.
      * destruct (decide (a = a0)) as [->|Hne].
        -- rewrite lookup_insert_eq, Hb.
           destruct (decide (a0 ∈ a0 :: rest)) as [_|Hc]; [reflexivity|].
           exfalso. apply Hc. left.
        -- rewrite lookup_insert_ne by (intros E; apply str_inj in E; congruence).
           destruct (decide (a ∈ a0 :: rest)) as [Hc|_]; [|reflexivity].
           apply elem_of_cons in Hc. destruct Hc; contradiction.
Qed.

(** X22.  [save_memory_dump] refuses a range that starts below 0, ends
    beyond the data memory or ends before it starts, with the
    invalid-range [ValueError], and reads nothing.  For any other range the
    dump has one entry per address of [start .. end - 1], keyed by the
    decimal text of the address and holding the byte stored there, and no
    other entry for an address; its size field is [end - start]; the machine
    is unchanged. *)
Theorem save_memory_dump_range :
  forall self start end_,
    ((start < 0 \/ Z.of_nat (length (data_memory self)) < end_ \/ end_ < start) ->
     save_memory_dump start end_ self
     = (inl (ValueError ("Invalid memory range: [" +:+ str start +:+ ", "
                         +:+ str end_ +:+ ")")), self))
    /\ (0 <= start <= end_ /\ end_ <= Z.of_nat (length (data_memory self)) ->
        exists d,
          save_memory_dump start end_ self = (inr d, self)
          /\ dump_start d = start /\ dump_end d = end_
          /\ dump_size d = end_ - start
          /\ Z.of_nat (size (dump_data d)) = end_ - start
          /\ forall addr,
               dump_data d !! str addr
               = if decide (start <= addr < end_)
                 then Z_of_byte <$> data_memory self !! Z.to_nat addr
                 else None).
Proof.
  intros self start end_. unfold save_memory_dump. split.
  - intros H.
    destruct (Z.ltb_spec start 0); [reflexivity|].
    destruct (Z.gtb_spec end_ (Z.of_nat (length (data_memory self))));
      [reflexivity|].
    destruct (Z.gtb_spec start end_); [reflexivity|]. lia.
  - intros [H0 H1].
    destruct (Z.ltb_spec start 0); [lia|].
    destruct (Z.gtb_spec end_ (Z.of_nat (length (data_memory self)))); [lia|].
    destruct (Z.gtb_spec start end_); [lia|]. simpl orb. cbv iota.
    destruct (dump_loop_spec self (seqZ start (end_ - start))) with (m := (∅ : gmap string Z))
      as (m' & Hrun & Hsize & Hlook).
    + apply Forall_seqZ. intros a Ha. lia.
    + apply NoDup_seqZ.
    + intros a _. apply lookup_empty.
    + rewrite Hrun. eexists. split; [reflexivity|]. simpl.
      repeat split.
      * rewrite Hsize, map_size_empty, length_seqZ. lia.
      * intros addr. rewrite Hlook, lookup_empty.
        destruct (decide (addr ∈ seqZ start (end_ - start))) as [Hin|Hnin];
          destruct (decide (start <= addr < end_)) as [Hr|Hnr];
          try reflexivity; rewrite elem_of_seqZ in *; lia.
Qed.

Lemma save_memory_dump_range_witness :
  let self := mkUVM [] 0 [x0a; x0b; x0c; x0d] [] 0 in
  (0 <= 1 <= 3 /\ 3 <= Z.of_nat (length (data_memory self)))
  /\ exists d,
       save_memory_dump 1 3 self = (inr d, self)
       /\ dump_size d = 2
       /\ dump_data d !! str 2 = Some 12
       /\ dump_data d !! str 3 = None.
Proof.
  intros self.
  assert (H : 0 <= 1 <= 3 /\ 3 <= Z.of_nat (length (data_memory self)))
    by (simpl; lia).
  split; [exact H|].
  destruct (proj2 (save_memory_dump_range self 1 3) H)
    as (d & Hd & _ & _ & Hs & _ & Hl).
  exists d. split; [exact Hd|]. split; [exact Hs|]. split.
  - rewrite (Hl 2). reflexivity.
  - rewrite (Hl 3). reflexivity.
Defined.

(** * Storing and reading back *)

(** X23.  What [WRITE_MEM] stores, [READ_MEM] reads back.  With the value
    [x] on top of the stack and a base below it, a [write] to an address
    inside the data memory followed by a [read] whose base and offset add up
    to that address leaves [x & 0xFF] where the base was; both passes
    succeed and the rest of the stack is as before. *)
Theorem write_then_read :
  forall self pre b0 b1 b2 b3 off post s base x n,
    fetches self pre ([xd5; b0; b1; b2; b3] ++ [x87; off]) post ->
    stack self = s ++ [base; x] ->
    dword b0 b1 b2 b3 = base + Z.land (Z_of_byte off) 63 ->
    dword b0 b1 b2 b3 < Z.of_nat (length (data_memory self)) ->
    exists self1 self2,
      cycle n self = (inr (n + 1), self1, n + 1)
      /\ cycle (n + 1) self1 = (inr (n + 1 + 1), self2, n + 1 + 1)
      /\ stack self2 = s ++ [Z.land x 255]
      /\ ip self2 = ip self + 7
      /\ length (data_memory self2) = length (data_memory self).
Proof.
  intros self pre b0 b1 b2 b3 off post s base x n Hf Hs Haddr Hlt.
  pose proof (dword_range b0 b1 b2 b3) as Hr.
  destruct Hf as (Hc & Hi & Hp).
  assert (Hf1 : fetches self pre [xd5; b0; b1; b2; b3] ([x87; off] ++ post)).
  { repeat split; [rewrite Hc, <- app_assoc; reflexivity | exact Hi | exact Hp]. }
  assert (Hs1 : stack self = (s ++ [base]) ++ [x])
    by (rewrite Hs, <- app_assoc; reflexivity).
  pose proof (cycle_write_ok self pre _ b0 b1 b2 b3 n Hf1 (s ++ [base]) x Hs1 Hlt)
    as H1.
  set (self1 := mkUVM (code_memory self) (program_size self)
                      (<[Z.to_nat (dword b0 b1 b2 b3)
                         := byte_of_Z (Z.land x 255)]> (data_memory self))
                      (s ++ [base]) (ip self + 5)) in *.
  assert (Hf2 : fetches self1 (pre ++ [xd5; b0; b1; b2; b3]) [x87; off] post).
  { repeat split; simpl.
    - rewrite Hc, <- !app_assoc. reflexivity.
    - rewrite Hi, length_app. simpl. lia.
    - exact Hp. }
  assert (Hb : data_memory self1 !! Z.to_nat (base + Z.land (Z_of_byte off) 63)
               = Some (byte_of_Z (Z.land x 255))).
  { rewrite <- Haddr. simpl. apply list_lookup_insert_eq. lia. }
  pose proof (cycle_read_ok self1 _ post off (n + 1) Hf2 s base eq_refl
                (byte_of_Z (Z.land x 255))) as H2.
  cbv zeta in H2. rewrite <- Haddr in H2 at 1.
  specialize (H2 (proj1 Hr) Hb).
  eexists _, _. split; [exact H1|]. split; [exact H2|].
  simpl. rewrite Z_of_byte_of_Z by apply land_255_range.
  repeat split; [lia | apply length_insert].
Qed.

Lemma write_then_read_witness :
  let self := mkUVM [xd5; x03; x00; x00; x00; x87; x01] 7
                    [x00; x00; x00; x00] [9; 2; 511] 0 in
  fetches self [] ([xd5; x03; x00; x00; x00] ++ [x87; x01]) []
  /\ stack self = [9] ++ [2; 511]
  /\ dword x03 x00 x00 x00 = 2 + Z.land (Z_of_byte x01) 63
  /\ dword x03 x00 x00 x00 < Z.of_nat (length (data_memory self))
  /\ exists self1 self2,
       cycle 0 self = (inr (0 + 1), self1, 0 + 1)
       /\ cycle (0 + 1) self1 = (inr (0 + 1 + 1), self2, 0 + 1 + 1)
       /\ stack self2 = [9] ++ [Z.land 511 255]
       /\ ip self2 = ip self + 7
       /\ length (data_memory self2) = length (data_memory self).
Proof.
  intros self.
  assert (Hf : fetches self [] ([xd5; x03; x00; x00; x00] ++ [x87; x01]) [])
    by (repeat split).
  assert (Hs : stack self = [9] ++ [2; 511]) by reflexivity.
  assert (Ha : dword x03 x00 x00 x00 = 2 + Z.land (Z_of_byte x01) 63)
    by reflexivity.
  assert (Hl : dword x03 x00 x00 x00 < Z.of_nat (length (data_memory self)))
    by (vm_compute; reflexivity).
  split; [exact Hf|]. split; [exact Hs|]. split; [exact Ha|]. split; [exact Hl|].
  exact (write_then_read self [] x03 x00 x00 x00 x01 [] [9] 2 511 0 Hf Hs Ha Hl).
Defined.
